(** * The issue board of the Citizen-Politician platform (src/App.jsx)

    A shallow embedding of the state model of [App] and of the event
    handlers of its child components [IssueForm], [IssueDetail] and
    [Broadcast], followed by the properties of the issue collection that
    the specification states about them.

    React state is passed explicitly: a callback of the source that calls
    [setIssues], [setSelected] or [setModalMessage] is a function from
    [State.t] to [State.t]; the effect that depends on [issues] is the
    function [issuesEffect], run after every callback that replaced the
    array.  [Date.now()] and [new Date().toLocaleString()] are read from a
    [Clock.t] handed to the callback. *)

From Stdlib Require Import NArith DecimalN DecimalFacts.
From stdpp Require Import gmap list strings sorting.

(** ** JavaScript strings

    A JavaScript string is a sequence of UTF-16 code units. *)

Abbreviation js_string := (list N).

(** The string literal [s] of the source (code units below 256). *)
Definition js (s : string) : js_string :=
  (λ a, Ascii.N_of_ascii a) <$> String.list_ascii_of_string s.

(** ToBoolean on a string: only the empty string is falsy. *)
Definition truthy (s : js_string) : bool :=
  match s with [] => false | _ :: _ => true end.

(** [a || b] on strings. *)
Definition or_else (a b : js_string) : js_string :=
  if truthy a then a else b.

(** WhiteSpace and LineTerminator code units, the ones
    [String.prototype.trim] strips. *)
Definition isWhiteSpace (c : N) : bool :=
  (c =? 9)%N || (c =? 10)%N || (c =? 11)%N || (c =? 12)%N || (c =? 13)%N
  || (c =? 32)%N || (c =? 160)%N || (c =? 5760)%N
  || ((8192 <=? c)%N && (c <=? 8202)%N)
  || (c =? 8232)%N || (c =? 8233)%N || (c =? 8239)%N || (c =? 8287)%N
  || (c =? 12288)%N || (c =? 65279)%N.

Fixpoint trimStart (s : js_string) : js_string :=
  match s with
  | [] => []
  | c :: s' => if isWhiteSpace c then trimStart s' else s
  end.

Definition trimEnd (s : js_string) : js_string :=
  reverse (trimStart (reverse s)).

Definition trim (s : js_string) : js_string := trimEnd (trimStart s).

(** [Number.prototype.toString] on a non-negative integer below 2^53, as
    [Date.now()] returns: its decimal digits. *)
Fixpoint uint_units (d : Decimal.uint) : js_string :=
  match d with
  | Decimal.Nil => []
  | Decimal.D0 d => 48%N :: uint_units d
  | Decimal.D1 d => 49%N :: uint_units d
  | Decimal.D2 d => 50%N :: uint_units d
  | Decimal.D3 d => 51%N :: uint_units d
  | Decimal.D4 d => 52%N :: uint_units d
  | Decimal.D5 d => 53%N :: uint_units d
  | Decimal.D6 d => 54%N :: uint_units d
  | Decimal.D7 d => 55%N :: uint_units d
  | Decimal.D8 d => 56%N :: uint_units d
  | Decimal.D9 d => 57%N :: uint_units d
  end.

Definition toString (n : N) : js_string := uint_units (N.to_uint n).

(** [s.includes(t)]: [t] occurs in [s] as a contiguous run. *)
Fixpoint startsWith (s t : js_string) : bool :=
  match t, s with
  | [], _ => true
  | _ :: _, [] => false
  | b :: t', a :: s' => (a =? b)%N && startsWith s' t'
  end.

Fixpoint includes (s t : js_string) : bool :=
  startsWith s t || match s with [] => false | _ :: s' => includes s' t end.

(** ** The clock *)

Module Clock.
(** [now]: what [Date.now()] returns, in milliseconds;
    [toLocaleString]: what [new Date().toLocaleString()] returns. *)
Record t := mk { now : N; toLocaleString : js_string }.
End Clock.

(** ** Data model: the object literals of [addComment], [addIssue] and
    [postUpdate] *)

Module Comment.
(** [{ id, role, text, at }]; [at] is a reserved word here. *)
Record t := mk {
  id : js_string;
  role : js_string;
  text : js_string;
  at_ : js_string
}.
End Comment.

Module Issue.
Record t := mk {
  id : js_string;
  title : js_string;
  description : js_string;
  category : js_string;
  status : js_string;
  comments : list Comment.t;
  createdAt : js_string;
  reporterRole : js_string
}.

(** [{ ...it, status }] *)
Definition with_status (it : t) (status : js_string) : t :=
  mk (id it) (title it) (description it) (category it) status
     (comments it) (createdAt it) (reporterRole it).

(** [{ ...it, comments }] *)
Definition with_comments (it : t) (comments : list Comment.t) : t :=
  mk (id it) (title it) (description it) (category it) (status it)
     comments (createdAt it) (reporterRole it).
End Issue.

#[global] Instance Comment_eq_dec : EqDecision Comment.t.
Proof. solve_decision. Defined.

#[global] Instance Issue_eq_dec : EqDecision Issue.t.
Proof. solve_decision. Defined.

(** ** The state of [App]: its five [useState] cells *)

Module State.
Record t := mk {
  role : js_string;
  issues : list Issue.t;
  filter : js_string;
  selected : option Issue.t;
  modalMessage : option js_string
}.

(** The initial values given to [useState]. *)
Definition init : t := mk (js "Citizen") [] (js "all") None None.

Definition setIssues (f : list Issue.t → list Issue.t) (st : t) : t :=
  mk (role st) (f (issues st)) (filter st) (selected st) (modalMessage st).

Definition setSelected (sel : option Issue.t) (st : t) : t :=
  mk (role st) (issues st) (filter st) sel (modalMessage st).

Definition setModalMessage (m : option js_string) (st : t) : t :=
  mk (role st) (issues st) (filter st) (selected st) m.

Definition setRole (r : js_string) (st : t) : t :=
  mk r (issues st) (filter st) (selected st) (modalMessage st).
End State.

(** ** Core action functions of [App] *)

Definition addIssue (clk : Clock.t) (title description category : js_string)
    (st : State.t) : State.t :=
  let newIssue :=
    {| Issue.id := toString (Clock.now clk);
       Issue.title := title;
       Issue.description := description;
       Issue.category := category;
       Issue.status := js "Open";
       Issue.comments := [];
       Issue.createdAt := Clock.toLocaleString clk;
       Issue.reporterRole := State.role st |} in
  State.setIssues (λ prev, newIssue :: prev) st.

Definition addComment (clk : Clock.t) (issueId text : js_string)
    (st : State.t) : State.t :=
  State.setIssues (λ prev,
    (λ it,
      if decide (Issue.id it = issueId)
      then Issue.with_comments it
             (Issue.comments it ++
              [ {| Comment.id := toString (Clock.now clk);
                   Comment.role := State.role st;
                   Comment.text := text;
                   Comment.at_ := Clock.toLocaleString clk |} ])
      else it) <$> prev) st.

Definition postUpdate (clk : Clock.t) (text category : js_string)
    (st : State.t) : State.t :=
  let update :=
    {| Issue.id := toString (Clock.now clk);
       Issue.title := js "Broadcast - " ++ or_else category (js "General");
       Issue.description := text;
       Issue.category := or_else category (js "General");
       Issue.status := js "Update";
       Issue.comments := [];
       Issue.createdAt := Clock.toLocaleString clk;
       Issue.reporterRole := js "Politician" |} in
  State.setIssues (λ prev, update :: prev) st.

Definition changeStatus (issueId status : js_string) (st : State.t)
    : State.t :=
  State.setIssues (λ prev,
    (λ it,
      if decide (Issue.id it = issueId)
      then Issue.with_status it status
      else it) <$> prev) st.

Definition deleteDenied : js_string :=
  js "Error: Only Admin users are authorized to delete reports.".

Definition deleteIssue (issueId : js_string) (st : State.t) : State.t :=
  if decide (State.role st ≠ js "Admin")
  then State.setModalMessage (Some deleteDenied) st
  else State.setSelected None
         (State.setIssues
            (λ prev, filter (λ it, Issue.id it ≠ issueId) prev) st).

(** The list under "All Public Reports". *)
Definition visible (st : State.t) : list Issue.t :=
  filter (λ it,
    State.filter st = js "all" ∨ Issue.status it = State.filter st)
    (State.issues st).

(** The list under "Recent Updates & Open Reports":
    [issues.filter(...).slice(0, limit)], which [App] renders with
    [limit] = 6. *)
Definition recentFeed (issues : list Issue.t) (limit : nat) : list Issue.t :=
  take limit
    (filter (λ i, Issue.status i = js "Update" ∨ Issue.status i = js "Open")
       issues).

Definition updatesList (st : State.t) : list Issue.t :=
  recentFeed (State.issues st) 6.

(** ** Child components

    A component is given its props as arguments; a callback prop acts on
    the state [S] of whoever rendered the component.  A handler returns the
    component's own state next to the parent's. *)

Module IssueForm.
Record t := mk {
  title : js_string;
  description : js_string;
  category : js_string
}.

Definition init : t := mk [] [] (js "General").

Definition submit {S : Type}
    (onSubmit : js_string → js_string → js_string → S → S)
    (f : t) (parent : S) : t * S :=
  if negb (truthy (trim (title f))) || negb (truthy (trim (description f)))
  then (f, parent)
  else (init,
        onSubmit (trim (title f)) (trim (description f)) (category f)
          parent).
End IssueForm.

Module IssueDetail.
Definition isAuthorizedToAct (currentRole : js_string) : bool :=
  bool_decide (currentRole = js "Moderator")
  || bool_decide (currentRole = js "Politician")
  || bool_decide (currentRole = js "Admin").

Definition isAdmin (currentRole : js_string) : bool :=
  bool_decide (currentRole = js "Admin").

Definition isBroadcast (issue : Issue.t) : bool :=
  bool_decide (Issue.status issue = js "Update").

Definition statusDenied (currentRole : js_string) : js_string :=
  js "Only Politician, Moderator, or Admin roles can change the status of a report. Current Role: "
  ++ currentRole.

Definition handleStatusChange {S : Type}
    (onChangeStatus : js_string → js_string → S → S)
    (setModalMessage : js_string → S → S)
    (currentRole : js_string) (issue : Issue.t) (status : js_string)
    (parent : S) : S :=
  if negb (isAuthorizedToAct currentRole)
  then setModalMessage (statusDenied currentRole) parent
  else onChangeStatus (Issue.id issue) status parent.

Definition handleDelete {S : Type}
    (onDelete : js_string → S → S)
    (setModalMessage : js_string → S → S)
    (currentRole : js_string) (issue : Issue.t) (parent : S) : S :=
  if negb (isAdmin currentRole)
  then setModalMessage
         (js "Error: Only Admin users are authorized to delete reports.")
         parent
  else onDelete (Issue.id issue) parent.

(** The [onSubmit] of the comment form; [text] is the component's
    state. *)
Definition submitComment {S : Type}
    (onComment : js_string → js_string → S → S)
    (issue : Issue.t) (text : js_string) (parent : S) : js_string * S :=
  if negb (truthy (trim text))
  then (text, parent)
  else ([], onComment (Issue.id issue) (trim text) parent).

Inductive button := AddComment | MarkInProgress | MarkResolved | Delete.

#[global] Instance button_eq_dec : EqDecision button.
Proof. solve_decision. Defined.

(** The buttons of the rendered form, each with its [disabled]
    attribute. *)
Definition buttons (currentRole : js_string) (issue : Issue.t)
    : list (button * bool) :=
  [(AddComment, false)]
  ++ (if isAuthorizedToAct currentRole && negb (isBroadcast issue)
      then [(MarkInProgress,
              bool_decide (Issue.status issue = js "In Progress"));
            (MarkResolved,
              bool_decide (Issue.status issue = js "Resolved"))]
      else [])
  ++ (if isAdmin currentRole then [(Delete, false)] else []).

(** A click reaches a handler only through a rendered button that is not
    disabled. *)
Definition clickable (currentRole : js_string) (issue : Issue.t)
    (b : button) : bool :=
  bool_decide ((b, false) ∈ buttons currentRole issue).

Definition click {S : Type}
    (onComment : js_string → js_string → S → S)
    (onChangeStatus : js_string → js_string → S → S)
    (onDelete : js_string → S → S)
    (setModalMessage : js_string → S → S)
    (currentRole : js_string) (issue : Issue.t)
    (b : button) (text : js_string) (parent : S) : js_string * S :=
  if clickable currentRole issue b then
    match b with
    | AddComment => submitComment onComment issue text parent
    | MarkInProgress =>
        (text, handleStatusChange onChangeStatus setModalMessage
                 currentRole issue (js "In Progress") parent)
    | MarkResolved =>
        (text, handleStatusChange onChangeStatus setModalMessage
                 currentRole issue (js "Resolved") parent)
    | Delete =>
        (text, handleDelete onDelete setModalMessage currentRole issue
                 parent)
    end
  else (text, parent).
End IssueDetail.

Module Broadcast.
Record t := mk { msg : js_string; category : js_string }.

Definition init : t := mk [] (js "General").

Definition isPolitician (currentRole : js_string) : bool :=
  bool_decide (currentRole = js "Politician").

Definition sendDenied (currentRole : js_string) : js_string :=
  js "Access Denied: Only the Politician role can post public broadcasts. Current Role: "
  ++ currentRole.

Definition send {S : Type}
    (postUpdate : js_string → js_string → S → S)
    (setModalMessage : js_string → S → S)
    (currentRole : js_string) (b : t) (parent : S) : t * S :=
  if negb (isPolitician currentRole)
  then (b, setModalMessage (sendDenied currentRole) parent)
  else if negb (truthy (trim (msg b)))
  then (b, parent)
  else (init, postUpdate (trim (msg b)) (category b) parent).
End Broadcast.

(** ** [App] wires its callbacks into the components it renders *)

Definition showModal (m : js_string) (st : State.t) : State.t :=
  State.setModalMessage (Some m) st.

(** [<IssueForm onSubmit={addIssue} />], rendered for a Citizen only. *)
Definition App_submitIssue (clk : Clock.t) (f : IssueForm.t) (st : State.t)
    : IssueForm.t * State.t :=
  if decide (State.role st = js "Citizen")
  then IssueForm.submit (addIssue clk) f st
  else (f, st).

(** [<IssueDetail issue={selected} ... />], rendered while an issue is
    selected. *)
Definition App_clickDetail (clk : Clock.t) (b : IssueDetail.button)
    (text : js_string) (st : State.t) : js_string * State.t :=
  match State.selected st with
  | Some issue =>
      IssueDetail.click (addComment clk) changeStatus deleteIssue showModal
        (State.role st) issue b text st
  | None => (text, st)
  end.

(** [<Broadcast postUpdate={postUpdate} currentRole={role} ... />]. *)
Definition App_sendBroadcast (clk : Clock.t) (b : Broadcast.t)
    (st : State.t) : Broadcast.t * State.t :=
  Broadcast.send (postUpdate clk) showModal (State.role st) b st.

(** ** JSON values and [JSON.stringify]

    The values [JSON.parse] produces.  A number is kept as the literal that
    denotes it (issue records hold none).  An object lists its properties
    in insertion order, which is the order JavaScript enumerates keys that
    are not array indices. *)

#[warnings="-register-all"]
Inductive json :=
| JNull
| JBool (b : bool)
| JNum (literal : js_string)
| JStr (s : js_string)
| JArr (elements : list json)
| JObj (members : list (js_string * json)).

Definition hexDigit (n : N) : N :=
  if (n <? 10)%N then (48 + n)%N else (87 + n)%N.

(** [\uXXXX], four lower-case hexadecimal digits. *)
Definition unicodeEscape (c : N) : js_string :=
  [92; 117;
   hexDigit ((c / 4096) mod 16); hexDigit ((c / 256) mod 16);
   hexDigit ((c / 16) mod 16); hexDigit (c mod 16)]%N.

Definition isHighSurrogate (c : N) : bool :=
  (55296 <=? c)%N && (c <=? 56319)%N.

Definition isLowSurrogate (c : N) : bool :=
  (56320 <=? c)%N && (c <=? 57343)%N.

(** One code unit of QuoteJSONString that is not half of a surrogate
    pair. *)
Definition quoteUnit (c : N) : js_string :=
  if (c =? 8)%N then [92; 98]%N
  else if (c =? 9)%N then [92; 116]%N
  else if (c =? 10)%N then [92; 110]%N
  else if (c =? 12)%N then [92; 102]%N
  else if (c =? 13)%N then [92; 114]%N
  else if (c =? 34)%N then [92; 34]%N
  else if (c =? 92)%N then [92; 92]%N
  else if (c <? 32)%N || isHighSurrogate c || isLowSurrogate c
       then unicodeEscape c
  else [c].

Fixpoint quoteBody (s : js_string) : js_string :=
  match s with
  | [] => []
  | c :: s' =>
      match s' with
      | d :: s'' =>
          if isHighSurrogate c && isLowSurrogate d
          then c :: d :: quoteBody s''
          else quoteUnit c ++ quoteBody s'
      | [] => quoteUnit c
      end
  end.

Definition quoteJSONString (s : js_string) : js_string :=
  34%N :: quoteBody s ++ [34%N].

Fixpoint joinComma (l : list js_string) : js_string :=
  match l with
  | [] => []
  | x :: l' =>
      match l' with
      | [] => x
      | _ :: _ => x ++ 44%N :: joinComma l'
      end
  end.

(** [JSON.stringify(v)] with no replacer and no indentation. *)
Fixpoint stringify (v : json) : js_string :=
  match v with
  | JNull => js "null"
  | JBool true => js "true"
  | JBool false => js "false"
  | JNum literal => literal
  | JStr s => quoteJSONString s
  | JArr elements =>
      91%N :: joinComma (map stringify elements) ++ [93%N]
  | JObj members =>
      123%N ::
      joinComma
        (map (λ kv, quoteJSONString (fst kv) ++ 58%N :: stringify (snd kv))
           members)
      ++ [125%N]
  end.

(** ** [JSON.parse] *)

(** How a computation ends: with a value, with a thrown exception, or, for
    the recursive descent below, by exhausting its recursion budget. *)
Inductive error := SyntaxError.

Inductive result (A : Type) :=
| Return (a : A)
| Throw (e : error)
| OutOfFuel.

Arguments Return {A} a.
Arguments Throw {A} e.
Arguments OutOfFuel {A}.

#[global] Instance result_bind : MBind result := λ A B k r,
  match r with
  | Return a => k a
  | Throw e => Throw e
  | OutOfFuel => OutOfFuel
  end.

Definition isJSONWhiteSpace (c : N) : bool :=
  (c =? 9)%N || (c =? 10)%N || (c =? 13)%N || (c =? 32)%N.

Fixpoint skipWs (s : js_string) : js_string :=
  match s with
  | [] => []
  | c :: s' => if isJSONWhiteSpace c then skipWs s' else s
  end.

Definition hexValue (c : N) : option N :=
  if (48 <=? c)%N && (c <=? 57)%N then Some (c - 48)%N
  else if (97 <=? c)%N && (c <=? 102)%N then Some (c - 87)%N
  else if (65 <=? c)%N && (c <=? 70)%N then Some (c - 55)%N
  else None.

(** The character a single-letter escape [\e] stands for. *)
Definition unescape (e : N) : option N :=
  if (e =? 34)%N then Some 34%N
  else if (e =? 92)%N then Some 92%N
  else if (e =? 47)%N then Some 47%N
  else if (e =? 98)%N then Some 8%N
  else if (e =? 102)%N then Some 12%N
  else if (e =? 110)%N then Some 10%N
  else if (e =? 114)%N then Some 13%N
  else if (e =? 116)%N then Some 9%N
  else None.

Definition consUnit (c : N) (p : js_string * js_string)
    : js_string * js_string :=
  (c :: fst p, snd p).

(** The characters of a string token after its opening quote: the decoded
    string and what follows the closing quote. *)
Fixpoint parseStringBody (s : js_string) : option (js_string * js_string) :=
  match s with
  | [] => None
  | c :: s1 =>
      if (c =? 34)%N then Some ([], s1)
      else if (c =? 92)%N then
        match s1 with
        | [] => None
        | e :: s2 =>
            if (e =? 117)%N then
              match s2 with
              | h1 :: h2 :: h3 :: h4 :: s3 =>
                  match hexValue h1, hexValue h2, hexValue h3, hexValue h4
                  with
                  | Some a, Some b, Some c', Some d =>
                      consUnit (a * 4096 + b * 256 + c' * 16 + d)%N
                        <$> parseStringBody s3
                  | _, _, _, _ => None
                  end
              | _ => None
              end
            else
              match unescape e with
              | Some u => consUnit u <$> parseStringBody s2
              | None => None
              end
        end
      else if (c <? 32)%N then None
      else consUnit c <$> parseStringBody s1
  end.

Definition isDigit (c : N) : bool := (48 <=? c)%N && (c <=? 57)%N.

Fixpoint spanDigits (s : js_string) : js_string * js_string :=
  match s with
  | [] => ([], [])
  | c :: s' => if isDigit c then consUnit c (spanDigits s') else ([], s)
  end.

(** [0] or a digit from 1 to 9 followed by digits. *)
Definition parseInt (s : js_string) : option (js_string * js_string) :=
  match s with
  | [] => None
  | c :: s' =>
      if (c =? 48)%N then Some ([c], s')
      else if isDigit c then Some (consUnit c (spanDigits s'))
      else None
  end.

(** An optional [.] followed by at least one digit. *)
Definition parseFrac (s : js_string) : option (js_string * js_string) :=
  match s with
  | c :: s' =>
      if (c =? 46)%N then
        match spanDigits s' with
        | ([], _) => None
        | (ds, rest) => Some (c :: ds, rest)
        end
      else Some ([], s)
  | [] => Some ([], s)
  end.

(** An optional [e] or [E], an optional sign, at least one digit. *)
Definition parseExp (s : js_string) : option (js_string * js_string) :=
  match s with
  | c :: s' =>
      if (c =? 101)%N || (c =? 69)%N then
        match s' with
        | g :: s'' =>
            if (g =? 43)%N || (g =? 45)%N then
              match spanDigits s'' with
              | ([], _) => None
              | (ds, rest) => Some (c :: g :: ds, rest)
              end
            else
              match spanDigits s' with
              | ([], _) => None
              | (ds, rest) => Some (c :: ds, rest)
              end
        | [] => None
        end
      else Some ([], s)
  | [] => Some ([], s)
  end.

Definition parseUnsigned (s : js_string) : option (js_string * js_string) :=
  '(i, s1) ← parseInt s;
  '(f, s2) ← parseFrac s1;
  '(e, s3) ← parseExp s2;
  Some (i ++ f ++ e, s3).

Definition parseNumber (s : js_string) : option (js_string * js_string) :=
  match s with
  | c :: s' =>
      if (c =? 45)%N then consUnit c <$> parseUnsigned s'
      else parseUnsigned s
  | [] => None
  end.

(** [s] without its prefix [p], when it has it. *)
Fixpoint stripPrefix (p s : js_string) : option js_string :=
  match p, s with
  | [], _ => Some s
  | _ :: _, [] => None
  | a :: p', b :: s' => if (a =? b)%N then stripPrefix p' s' else None
  end.

Definition orSyntaxError {A : Type} (o : option A) : result A :=
  match o with Some a => Return a | None => Throw SyntaxError end.

(** Assigning property [k] of an object under construction: a key that is
    already there keeps its place and takes the new value. *)
Fixpoint objSet (k : js_string) (v : json) (m : list (js_string * json))
    : list (js_string * json) :=
  match m with
  | [] => [(k, v)]
  | (k', v') :: m' =>
      if decide (k' = k) then (k, v) :: m' else (k', v') :: objSet k v m'
  end.

Definition mkObject (members : list (js_string * json))
    : list (js_string * json) :=
  foldl (λ m kv, objSet (fst kv) (snd kv) m) [] members.

(** Recursive descent on the JSON grammar.  [parseValue] reads one value
    after optional white space; [parseElements] reads the elements of an
    array up to and including its [']']; [parseMembers] the members of an
    object up to and including its ['}'].  Each returns what it read and
    the rest of the text. *)
Fixpoint parseValue (fuel : nat) (s : js_string)
    : result (json * js_string) :=
  match fuel with
  | O => OutOfFuel
  | S fuel =>
      match skipWs s with
      | [] => Throw SyntaxError
      | c :: s1 =>
          if (c =? 123)%N then
            match skipWs s1 with
            | [] => Throw SyntaxError
            | c1 :: s2 =>
                if (c1 =? 125)%N then Return (JObj [], s2)
                else
                  '(ms, rest) ← parseMembers fuel s1;
                  Return (JObj (mkObject ms), rest)
            end
          else if (c =? 91)%N then
            match skipWs s1 with
            | [] => Throw SyntaxError
            | c1 :: s2 =>
                if (c1 =? 93)%N then Return (JArr [], s2)
                else
                  '(vs, rest) ← parseElements fuel s1;
                  Return (JArr vs, rest)
            end
          else if (c =? 34)%N then
            '(str, rest) ← orSyntaxError (parseStringBody s1);
            Return (JStr str, rest)
          else if (c =? 110)%N then
            rest ← orSyntaxError (stripPrefix (js "ull") s1);
            Return (JNull, rest)
          else if (c =? 116)%N then
            rest ← orSyntaxError (stripPrefix (js "rue") s1);
            Return (JBool true, rest)
          else if (c =? 102)%N then
            rest ← orSyntaxError (stripPrefix (js "alse") s1);
            Return (JBool false, rest)
          else
            '(literal, rest) ← orSyntaxError (parseNumber (c :: s1));
            Return (JNum literal, rest)
      end
  end
with parseElements (fuel : nat) (s : js_string)
    : result (list json * js_string) :=
  match fuel with
  | O => OutOfFuel
  | S fuel =>
      '(v, s1) ← parseValue fuel s;
      match skipWs s1 with
      | [] => Throw SyntaxError
      | c :: s2 =>
          if (c =? 44)%N then
            '(vs, rest) ← parseElements fuel s2;
            Return (v :: vs, rest)
          else if (c =? 93)%N then Return ([v], s2)
          else Throw SyntaxError
      end
  end
with parseMembers (fuel : nat) (s : js_string)
    : result (list (js_string * json) * js_string) :=
  match fuel with
  | O => OutOfFuel
  | S fuel =>
      match skipWs s with
      | [] => Throw SyntaxError
      | q :: s1 =>
          if (q =? 34)%N then
            '(k, s2) ← orSyntaxError (parseStringBody s1);
            match skipWs s2 with
            | [] => Throw SyntaxError
            | c :: s3 =>
                if (c =? 58)%N then
                  '(v, s4) ← parseValue fuel s3;
                  match skipWs s4 with
                  | [] => Throw SyntaxError
                  | d :: s5 =>
                      if (d =? 44)%N then
                        '(ms, rest) ← parseMembers fuel s5;
                        Return ((k, v) :: ms, rest)
                      else if (d =? 125)%N then Return ([(k, v)], s5)
                      else Throw SyntaxError
                  end
                else Throw SyntaxError
            end
          else Throw SyntaxError
      end
  end.

(** [JSON.parse(text)] with no reviver: one value, then nothing but white
    space. *)
Definition JSON_parse (text : js_string) : result json :=
  '(v, rest) ← parseValue (2 * length text + 2) text;
  match skipWs rest with
  | [] => Return v
  | _ :: _ => Throw SyntaxError
  end.

Definition JSON_stringify (v : json) : js_string := stringify v.

(** ** Values that JSON text holds exactly

    [JSON.parse (JSON.stringify v)] gives [v] back for a value built from
    null, booleans, strings, arrays and objects whose keys are distinct. *)

Fixpoint storable (v : json) : bool :=
  match v with
  | JNull | JBool _ | JStr _ => true
  | JNum _ => false
  | JArr elements => forallb storable elements
  | JObj members =>
      bool_decide (NoDup (map fst members))
      && forallb (λ kv, storable (snd kv)) members
  end.

(** A recursion budget that is enough for [parseValue] to read back
    [stringify v]. *)
Fixpoint weight (v : json) : nat :=
  match v with
  | JArr elements => S (sum_list (map (λ x, S (weight x)) elements))
  | JObj members => S (sum_list (map (λ kv, S (weight (snd kv))) members))
  | _ => 1
  end.

(** [parseValue] reads [v] back from its text, whatever follows it. *)
Definition reads_back (v : json) : Prop :=
  ∀ fuel rest, storable v = true → weight v ≤ fuel →
    parseValue fuel (stringify v ++ rest) = Return (v, rest).

(** ** Persistence: [localStorage] under the key ["fedf_issues_v1"] *)

Abbreviation localStorage := (gmap js_string js_string).

(** [localStorage.getItem(k)]: [None] stands for [null]. *)
Definition getItem (k : js_string) (ls : localStorage) : option js_string :=
  ls !! k.

Definition setItem (k v : js_string) (ls : localStorage) : localStorage :=
  <[k := v]> ls.

Definition KEY : js_string := js "fedf_issues_v1".

(** The JavaScript objects that the records stand for, with their
    properties in the order of the object literals that create them. *)
Definition commentToJS (c : Comment.t) : json :=
  JObj [(js "id", JStr (Comment.id c));
        (js "role", JStr (Comment.role c));
        (js "text", JStr (Comment.text c));
        (js "at", JStr (Comment.at_ c))].

Definition issueToJS (it : Issue.t) : json :=
  JObj [(js "id", JStr (Issue.id it));
        (js "title", JStr (Issue.title it));
        (js "description", JStr (Issue.description it));
        (js "category", JStr (Issue.category it));
        (js "status", JStr (Issue.status it));
        (js "comments", JArr (commentToJS <$> Issue.comments it));
        (js "createdAt", JStr (Issue.createdAt it));
        (js "reporterRole", JStr (Issue.reporterRole it))].

Definition issuesToJS (issues : list Issue.t) : json :=
  JArr (issueToJS <$> issues).

(** The effect run on mount.  [issues] is the state cell, which the effect
    replaces by whatever [JSON.parse] returns; an exception of
    [JSON.parse] leaves the effect. *)
Definition loadEffect (ls : localStorage) (issues : json) : result json :=
  match getItem KEY ls with
  | Some saved => if truthy saved then JSON_parse saved else Return issues
  | None => Return issues
  end.

(** The collection after mount: [useState([])], then the effect. *)
Definition load (ls : localStorage) : result json :=
  loadEffect ls (issuesToJS []).

(** The first statement of the effect that depends on [issues]. *)
Definition save (issues : list Issue.t) (ls : localStorage) : localStorage :=
  setItem KEY (JSON_stringify (issuesToJS issues)) ls.

(** The effect that depends on [issues]; it sees the [selected] of the
    render it belongs to. *)
Definition issuesEffect (st : State.t) (ls : localStorage)
    : State.t * localStorage :=
  let ls' := save (State.issues st) ls in
  match State.selected st with
  | Some selected =>
      match find (λ i, bool_decide (Issue.id i = Issue.id selected))
              (State.issues st) with
      | Some updatedSelected =>
          (State.setSelected (Some updatedSelected) st, ls')
      | None => (State.setSelected None st, ls')
      end
  | None => (st, ls')
  end.

(** ** One user action: a core callback, then the effect if the callback
    replaced the [issues] array *)

Inductive action :=
| AddIssue (title description category : js_string)
| AddComment (issueId text : js_string)
| PostUpdate (text category : js_string)
| ChangeStatus (issueId status : js_string)
| DeleteIssue (issueId : js_string).

Definition perform (clk : Clock.t) (a : action) (st : State.t) : State.t :=
  match a with
  | AddIssue title description category =>
      addIssue clk title description category st
  | AddComment issueId text => addComment clk issueId text st
  | PostUpdate text category => postUpdate clk text category st
  | ChangeStatus issueId status => changeStatus issueId status st
  | DeleteIssue issueId => deleteIssue issueId st
  end.

(** Every callback calls [setIssues] with a new array, except
    [deleteIssue] when it denies. *)
Definition replacesIssues (a : action) (st : State.t) : bool :=
  match a with
  | DeleteIssue _ => bool_decide (State.role st = js "Admin")
  | _ => true
  end.

Definition dispatch (clk : Clock.t) (a : action)
    (w : State.t * localStorage) : State.t * localStorage :=
  let st' := perform clk a (fst w) in
  if replacesIssues a (fst w) then issuesEffect st' (snd w)
  else (st', snd w).

(** ** What [App] renders for an entry of the updates list *)

(** [u.description.substring(0, 100)], followed by ['...'] when the
    description has more than 100 code units. *)
Definition descriptionPreview (u : Issue.t) : js_string :=
  take 100 (Issue.description u)
  ++ (if decide (100 < length (Issue.description u)) then js "..." else []).

(** [u.reporterRole ? u.reporterRole[0] : 'C'] *)
Definition avatarLetter (u : Issue.t) : js_string :=
  if truthy (Issue.reporterRole u) then take 1 (Issue.reporterRole u)
  else js "C".

(** [u.status === 'Update' ? 'Broadcast' : u.status] *)
Definition statusLabel (u : Issue.t) : js_string :=
  if decide (Issue.status u = js "Update") then js "Broadcast"
  else Issue.status u.

(** ** The page as the user drives it

    What [App] renders decides which handlers a user can reach: the four
    role pills, the filter select, the rows of the report list, the issue
    form (for a Citizen), the buttons of the detail view (while an issue is
    selected), the broadcast button (enabled for a Politician) and the
    modal's close button.  An event carries what the user has typed or
    chosen by then; a select offers only its options. *)

(** The values the role pills set. *)
Definition rolePills : list js_string :=
  [js "Citizen"; js "Politician"; js "Moderator"; js "Admin"].

(** The [value]s of the filter select. *)
Definition filterOptions : list js_string :=
  [js "all"; js "Open"; js "In Progress"; js "Resolved"; js "Update"].

(** The options of the category select of [IssueForm]. *)
Definition formCategories : list js_string :=
  [js "General"; js "Electricity"; js "Roads"; js "Sanitation";
   js "Water"; js "Other"].

(** The options of the category select of [Broadcast]. *)
Definition broadcastCategories : list js_string :=
  [js "General"; js "Electricity"; js "Roads"; js "Sanitation"; js "Water"].

Definition setFilter (f : js_string) (st : State.t) : State.t :=
  State.mk (State.role st) (State.issues st) f (State.selected st)
    (State.modalMessage st).

Inductive ui_event :=
| ClickRole (r : js_string)
| ChooseFilter (f : js_string)
| ClickRow (i : nat)
| SubmitIssue (title description category : js_string)
| ClickDetail (b : IssueDetail.button) (text : js_string)
| ClickPost (msg category : js_string)
| CloseModal.

(** The state next to a flag that records whether [setIssues] has been
    called, that is, whether the next render has a new [issues] array. *)
Definition tracked : Type := State.t * bool.

Definition setsIssues (f : State.t → State.t) (t : tracked) : tracked :=
  (f (fst t), true).

Definition setsOther (f : State.t → State.t) (t : tracked) : tracked :=
  (f (fst t), snd t).

(** [deleteIssue] calls [setIssues] only past its role check. *)
Definition deleteTracked (issueId : js_string) (t : tracked) : tracked :=
  (deleteIssue issueId (fst t),
   snd t || bool_decide (State.role (fst t) = js "Admin")).

(** The handler an event reaches, if the control is rendered and enabled,
    run on the state of the current render. *)
Definition handle (clk : Clock.t) (ev : ui_event) (st : State.t) : tracked :=
  match ev with
  | ClickRole r =>
      if decide (r ∈ rolePills) then (State.setRole r st, false)
      else (st, false)
  | ChooseFilter f =>
      if decide (f ∈ filterOptions) then (setFilter f st, false)
      else (st, false)
  | ClickRow i =>
      match visible st !! i with
      | Some it => (State.setSelected (Some it) st, false)
      | None => (st, false)
      end
  | SubmitIssue title description category =>
      if decide (State.role st = js "Citizen"
                 ∧ category ∈ formCategories)
      then snd (IssueForm.submit
                  (λ t d c, setsIssues (addIssue clk t d c))
                  (IssueForm.mk title description category) (st, false))
      else (st, false)
  | ClickDetail b text =>
      match State.selected st with
      | Some issue =>
          snd (IssueDetail.click
                 (λ i t, setsIssues (addComment clk i t))
                 (λ i s, setsIssues (changeStatus i s))
                 deleteTracked
                 (λ m, setsOther (showModal m))
                 (State.role st) issue b text (st, false))
      | None => (st, false)
      end
  | ClickPost msg category =>
      if decide (Broadcast.isPolitician (State.role st) = true
                 ∧ category ∈ broadcastCategories)
      then snd (Broadcast.send
                  (λ t c, setsIssues (postUpdate clk t c))
                  (λ m, setsOther (showModal m))
                  (State.role st) (Broadcast.mk msg category) (st, false))
      else (st, false)
  | CloseModal => (State.setModalMessage None st, false)
  end.

(** One event: the handler, the render, and the effect when the render
    has a new [issues] array. *)
Definition ui_step (clk : Clock.t) (ev : ui_event)
    (w : State.t * localStorage) : State.t * localStorage :=
  let t := handle clk ev (fst w) in
  if snd t then issuesEffect (fst t) (snd w) else (fst t, snd w).



(** The page once mounted with nothing stored under the key: the mount
    effect leaves the initial state, and the effect that depends on
    [issues] runs on it. *)
Definition mountedEmpty (ls : localStorage) : State.t * localStorage :=
  issuesEffect State.init ls.

(** ** What holds of the page in use *)








(** The core action, if any, that an event comes down to, with what the
    page guarantees of it. *)
Inductive permitted (st : State.t) : action → Prop :=
| permit_addIssue title description category :
    State.role st = js "Citizen" →
    title ≠ [] → trim title = title →
    description ≠ [] → trim description = description →
    category ∈ formCategories →
    permitted st (AddIssue title description category)
| permit_addComment sel text :
    State.selected st = Some sel →
    text ≠ [] → trim text = text →
    permitted st (AddComment (Issue.id sel) text)
| permit_postUpdate text category :
    State.role st = js "Politician" →
    text ≠ [] → trim text = text →
    category ∈ broadcastCategories →
    permitted st (PostUpdate text category)
| permit_changeStatus sel status :
    State.selected st = Some sel →
    State.role st ∈ [js "Moderator"; js "Politician"; js "Admin"] →
    Issue.status sel ≠ js "Update" →
    status ∈ [js "In Progress"; js "Resolved"] →
    status ≠ Issue.status sel →
    permitted st (ChangeStatus (Issue.id sel) status)
| permit_deleteIssue sel :
    State.selected st = Some sel →
    State.role st = js "Admin" →
    permitted st (DeleteIssue (Issue.id sel)).

(** A change of the state that leaves the collection alone. *)
Inductive viewChange (st : State.t) : State.t → Prop :=
| view_same : viewChange st st
| view_role r : r ∈ rolePills → viewChange st (State.setRole r st)
| view_filter f : f ∈ filterOptions → viewChange st (setFilter f st)
| view_select it :
    it ∈ visible st → viewChange st (State.setSelected (Some it) st)
| view_close : viewChange st (State.setModalMessage None st).

(** ** Sample data *)

Definition noon : Clock.t := Clock.mk 1730000000000 (js "10/27/2024, 12:00:00 PM").

Definition later : Clock.t := Clock.mk 1730000060000 (js "10/27/2024, 12:01:00 PM").

(** A citizen reports a pothole. *)
Definition pothole : State.t :=
  addIssue noon (js "Pothole") (js "Large pothole on 5th") (js "Roads")
    State.init.

(** A politician announces a repair. *)
Definition announced : State.t :=
  postUpdate noon (js "Water main repair scheduled") (js "Water")
    (State.setRole (js "Politician") State.init).

Definition waterBroadcast : Issue.t :=
  {| Issue.id := js "1730000000000";
     Issue.title := js "Broadcast - Water";
     Issue.description := js "Water main repair scheduled";
     Issue.category := js "Water";
     Issue.status := js "Update";
     Issue.comments := [];
     Issue.createdAt := js "10/27/2024, 12:00:00 PM";
     Issue.reporterRole := js "Politician" |}.

Definition potholeIssue : Issue.t :=
  {| Issue.id := js "1730000000000";
     Issue.title := js "Pothole";
     Issue.description := js "Large pothole on 5th";
     Issue.category := js "Roads";
     Issue.status := js "Open";
     Issue.comments := [];
     Issue.createdAt := js "10/27/2024, 12:00:00 PM";
     Issue.reporterRole := js "Citizen" |}.

Definition twoReports : State.t :=
  State.setSelected (Some potholeIssue)
    (State.setRole (js "Admin")
       (addIssue later (js "Leak") (js "Water leak on 3rd") (js "Water")
          pothole)).


(** * Properties *)

(** A closed decidable proposition, settled by evaluation. *)
Ltac by_compute := apply (bool_decide_unpack _); vm_compute; exact I.

(** ** The model at work *)

Example trim_strips_both_ends : trim (js "  a b  ") = js "a b".
Proof. reflexivity. Qed.

Example toString_decimal : toString 1730000000000 = js "1730000000000".
Proof. reflexivity. Qed.

Example stringify_no_issues : JSON_stringify (issuesToJS []) = js "[]".
Proof. reflexivity. Qed.

Example parse_array :
  JSON_parse (js " [true, null, [], {}] ")
  = Return (JArr [JBool true; JNull; JArr []; JObj []]).
Proof. reflexivity. Qed.

Example parse_trailing_comma : JSON_parse (js "[true,]") = Throw SyntaxError.
Proof. reflexivity. Qed.

(** A citizen files the pothole; a Moderator marks it in progress; the
    citizen's request to delete it is denied; an Admin deletes it. *)
Example pothole_scenario :
  State.issues pothole = [potholeIssue]
  ∧ Issue.status <$>
      State.issues
        (changeStatus (Issue.id potholeIssue) (js "In Progress")
           (State.setRole (js "Moderator") pothole))
    = [js "In Progress"]
  ∧ State.issues (deleteIssue (Issue.id potholeIssue) pothole)
    = [potholeIssue]
  ∧ State.issues
      (deleteIssue (Issue.id potholeIssue)
         (State.setRole (js "Admin") pothole))
    = [].
Proof. vm_compute. auto. Qed.

Example broadcast_scenario : State.issues announced = [waterBroadcast].
Proof. reflexivity. Qed.

(** ** Strings and lists *)

Lemma uint_units_inj (d d' : Decimal.uint) :
  uint_units d = uint_units d' → d = d'.
Proof.
  revert d'; induction d; intros d' H; destruct d'; simpl in H;
    try discriminate; try reflexivity;
    injection H as H; f_equal; auto.
Qed.

(** Two clock readings with the same decimal string are equal. *)
Lemma toString_inj (n m : N) : toString n = toString m → n = m.
Proof.
  intros H. apply Unsigned.to_uint_inj, uint_units_inj, H.
Qed.

Lemma fmap_unchanged {A : Type} (f : A → A) (l : list A) :
  Forall (λ x, f x = x) l → f <$> l = l.
Proof.
  induction 1 as [|x l Hx _ IH]; [reflexivity|].
  by rewrite fmap_cons, Hx, IH.
Qed.

Lemma filter_unchanged {A : Type} (P : A → Prop) `{∀ x, Decision (P x)}
    (l : list A) :
  Forall P l → filter P l = l.
Proof.
  induction 1 as [|x l Hx _ IH]; [reflexivity|].
  rewrite filter_cons_True by done. by rewrite IH.
Qed.

Lemma absent_id_Forall (issueId : js_string) (C : list Issue.t) :
  issueId ∉ Issue.id <$> C → Forall (λ it, Issue.id it ≠ issueId) C.
Proof.
  intros Hno. apply Forall_forall. intros it Hit Heq.
  apply Hno, list_elem_of_fmap. eauto.
Qed.

(** ** The core callbacks on the collection *)

Lemma changeStatus_issues (issueId status : js_string) (st : State.t) :
  State.issues (changeStatus issueId status st)
  = (λ it, if decide (Issue.id it = issueId)
           then Issue.with_status it status else it) <$> State.issues st.
Proof. reflexivity. Qed.

Lemma addComment_issues (clk : Clock.t) (issueId text : js_string)
    (st : State.t) :
  State.issues (addComment clk issueId text st)
  = (λ it, if decide (Issue.id it = issueId)
           then Issue.with_comments it
                  (Issue.comments it ++
                   [Comment.mk (toString (Clock.now clk)) (State.role st)
                      text (Clock.toLocaleString clk)])
           else it) <$> State.issues st.
Proof. reflexivity. Qed.

Lemma deleteIssue_admin (issueId : js_string) (st : State.t) :
  State.role st = js "Admin" →
  deleteIssue issueId st
  = State.setSelected None
      (State.setIssues (λ prev, filter (λ it, Issue.id it ≠ issueId) prev)
         st).
Proof. intros Hr. unfold deleteIssue. by rewrite decide_False by auto. Qed.

Lemma deleteIssue_denied (issueId : js_string) (st : State.t) :
  State.role st ≠ js "Admin" →
  deleteIssue issueId st = State.setModalMessage (Some deleteDenied) st.
Proof. intros Hr. unfold deleteIssue. by rewrite decide_True. Qed.

(** ** [JSON.stringify] and [JSON.parse]: strings *)

Lemma hexValue_hexDigit (x : N) :
  (x < 16)%N → hexValue (hexDigit x) = Some x.
Proof.
  intros Hx. unfold hexDigit, hexValue.
  destruct (x <? 10)%N eqn:E.
  - apply N.ltb_lt in E.
    replace ((48 <=? 48 + x)%N && (48 + x <=? 57)%N) with true
      by (symmetry; apply andb_true_iff; split; apply N.leb_le; lia).
    f_equal. lia.
  - apply N.ltb_ge in E.
    replace ((48 <=? 87 + x)%N && (87 + x <=? 57)%N) with false
      by (symmetry; apply andb_false_iff; right; apply N.leb_gt; lia).
    replace ((97 <=? 87 + x)%N && (87 + x <=? 102)%N) with true
      by (symmetry; apply andb_true_iff; split; apply N.leb_le; lia).
    f_equal. lia.
Qed.

Lemma hex_digits_recompose (c : N) :
  (c < 65536)%N →
  ((c / 4096) mod 16 * 4096 + (c / 256) mod 16 * 256
   + (c / 16) mod 16 * 16 + c mod 16)%N = c.
Proof.
  intros Hc.
  pose proof (N.div_mod c 16 ltac:(lia)).
  pose proof (N.div_mod (c / 16) 16 ltac:(lia)).
  pose proof (N.div_mod (c / 256) 16 ltac:(lia)).
  pose proof (N.mod_small (c / 4096) 16).
  assert (c / 16 / 16 = c / 256)%N by (rewrite N.Div0.div_div; reflexivity).
  assert (c / 256 / 16 = c / 4096)%N by (rewrite N.Div0.div_div; reflexivity).
  assert (c / 4096 < 16)%N by (apply N.Div0.div_lt_upper_bound; lia).
  lia.
Qed.

Lemma parseStringBody_unicodeEscape (c : N) (t : js_string) :
  (c < 65536)%N →
  parseStringBody (unicodeEscape c ++ t) = consUnit c <$> parseStringBody t.
Proof.
  intros Hc. unfold unicodeEscape.
  cbn [app parseStringBody N.eqb Pos.eqb].
  rewrite !hexValue_hexDigit by (apply N.mod_lt; lia).
  by rewrite hex_digits_recompose.
Qed.

Lemma parseStringBody_plain (c : N) (t : js_string) :
  (c =? 34)%N = false → (c =? 92)%N = false → (c <? 32)%N = false →
  parseStringBody (c :: t) = consUnit c <$> parseStringBody t.
Proof. intros H1 H2 H3. cbn [parseStringBody]. by rewrite H1, H2, H3. Qed.

(** A string token reads one quoted code unit back as that code unit. *)
Lemma quoteUnit_parse (c : N) (t : js_string) :
  parseStringBody (quoteUnit c ++ t) = consUnit c <$> parseStringBody t.
Proof.
  unfold quoteUnit.
  repeat match goal with
         | |- context [(c =? ?k)%N] =>
             destruct (N.eqb_spec c k) as [->|?]; [reflexivity|]
         end.
  destruct ((c <? 32)%N || isHighSurrogate c || isLowSurrogate c) eqn:Hesc.
  - apply parseStringBody_unicodeEscape.
    unfold isHighSurrogate, isLowSurrogate in Hesc.
    apply orb_true_iff in Hesc as [Hesc|Hesc];
      [apply orb_true_iff in Hesc as [Hesc|Hesc]|].
    + apply N.ltb_lt in Hesc. lia.
    + apply andb_true_iff in Hesc as [_ Hesc]. apply N.leb_le in Hesc. lia.
    + apply andb_true_iff in Hesc as [_ Hesc]. apply N.leb_le in Hesc. lia.
  - apply orb_false_iff in Hesc as [Hesc _].
    apply orb_false_iff in Hesc as [Hesc _].
    apply parseStringBody_plain; [by apply N.eqb_neq..|done].
Qed.

Lemma surrogate_plain (c : N) :
  isHighSurrogate c || isLowSurrogate c = true →
  (c =? 34)%N = false ∧ (c =? 92)%N = false ∧ (c <? 32)%N = false.
Proof.
  unfold isHighSurrogate, isLowSurrogate. intros H.
  assert (55296 ≤ c)%N as Hc.
  { apply orb_true_iff in H as [H|H]; apply andb_true_iff in H as [H _];
      apply N.leb_le in H; lia. }
  repeat split; [apply N.eqb_neq | apply N.eqb_neq | apply N.ltb_ge]; lia.
Qed.

Lemma quoteBody_cons (c d : N) (s : js_string) :
  quoteBody (c :: d :: s)
  = if isHighSurrogate c && isLowSurrogate d
    then c :: d :: quoteBody s
    else quoteUnit c ++ quoteBody (d :: s).
Proof. reflexivity. Qed.

(** The body of a quoted string, up to its closing quote, reads back as
    the string. *)
Lemma parseStringBody_quoteBody (s rest : js_string) :
  parseStringBody (quoteBody s ++ 34%N :: rest) = Some (s, rest).
Proof.
  enough (H : (∀ rest, parseStringBody (quoteBody s ++ 34%N :: rest)
                       = Some (s, rest))
              ∧ (∀ c rest, parseStringBody (quoteBody (c :: s) ++ 34%N :: rest)
                           = Some (c :: s, rest))) by apply H.
  clear rest. induction s as [|d s [IH1 IH2]].
  - split; [reflexivity|]. intros c rest.
    cbn [quoteBody]. by rewrite quoteUnit_parse.
  - split; [apply IH2|]. intros c rest.
    rewrite quoteBody_cons.
    destruct (isHighSurrogate c && isLowSurrogate d) eqn:Hpair.
    + apply andb_true_iff in Hpair as [Hc Hd].
      destruct (surrogate_plain c) as (? & ? & ?); [by rewrite Hc|].
      destruct (surrogate_plain d) as (? & ? & ?);
        [by rewrite Hd, orb_true_r|].
      cbn [app]. rewrite !parseStringBody_plain by done.
      by rewrite IH1.
    + by rewrite <- app_assoc, quoteUnit_parse, IH2.
Qed.

Lemma parseStringBody_quoteJSONString (s rest : js_string) :
  ∃ t, quoteJSONString s ++ rest = 34%N :: t
       ∧ parseStringBody t = Some (s, rest).
Proof.
  exists (quoteBody s ++ 34%N :: rest). split.
  - unfold quoteJSONString. cbn [app]. by rewrite <- app_assoc.
  - apply parseStringBody_quoteBody.
Qed.

(** ** [JSON.parse] reads back what [JSON.stringify] writes *)

(** Induction on a value with the hypothesis for every element of an array
    and every member of an object. *)
Lemma json_nested_ind (P : json → Prop) :
  P JNull →
  (∀ b, P (JBool b)) →
  (∀ literal, P (JNum literal)) →
  (∀ s, P (JStr s)) →
  (∀ elements, Forall P elements → P (JArr elements)) →
  (∀ members, Forall (λ kv, P (snd kv)) members → P (JObj members)) →
  ∀ v, P v.
Proof.
  intros Hnull Hbool Hnum Hstr Harr Hobj.
  fix IH 1. intros [|b|literal|s|elements|members].
  - exact Hnull.
  - apply Hbool.
  - apply Hnum.
  - apply Hstr.
  - apply Harr. induction elements as [|x l IHl]; constructor.
    + apply IH.
    + exact IHl.
  - apply Hobj. induction members as [|[k x] l IHl]; constructor.
    + apply IH.
    + exact IHl.
Qed.

(** The first character of the text of a storable value starts a token. *)
Lemma stringify_head (v : json) :
  storable v = true →
  ∃ c t, stringify v = c :: t
         ∧ isJSONWhiteSpace c = false
         ∧ (c =? 93)%N = false.
Proof.
  destruct v as [|[|]|literal|s|elements|members]; intros Hv;
    try discriminate; eexists _, _; (split; [reflexivity|split; reflexivity]).
Qed.

Lemma skipWs_stringify (v : json) (rest : js_string) :
  storable v = true → skipWs (stringify v ++ rest) = stringify v ++ rest.
Proof.
  intros Hv. destruct (stringify_head v Hv) as (c & t & -> & Hws & _).
  cbn [app skipWs]. by rewrite Hws.
Qed.

Lemma joinComma_cons2 (x y : js_string) (l : list js_string) :
  joinComma (x :: y :: l) = x ++ 44%N :: joinComma (y :: l).
Proof. reflexivity. Qed.

Lemma objSet_fresh (k : js_string) (v : json)
    (m : list (js_string * json)) :
  k ∉ map fst m → objSet k v m = m ++ [(k, v)].
Proof.
  induction m as [|[k' v'] m IH]; intros Hk; [reflexivity|].
  cbn [objSet]. cbn [map fst] in Hk. apply not_elem_of_cons in Hk as [Hne Hk].
  rewrite decide_False by auto. by rewrite IH.
Qed.

(** Assigning distinct keys one after the other lists them in that
    order. *)
Lemma mkObject_NoDup (m : list (js_string * json)) :
  NoDup (map fst m) → mkObject m = m.
Proof.
  unfold mkObject.
  enough (H : ∀ acc, NoDup (map fst (acc ++ m)) →
              foldl (λ m kv, objSet (fst kv) (snd kv) m) acc m = acc ++ m)
    by apply (H []).
  induction m as [|[k v] m IH]; intros acc Hnd.
  - by rewrite app_nil_r.
  - cbn [foldl fst snd]. rewrite objSet_fresh.
    + rewrite IH; rewrite <- app_assoc; [done|exact Hnd].
    + rewrite map_app in Hnd. apply NoDup_app in Hnd as (_ & Hd & _).
      intros Hin. apply (Hd k Hin). cbn [map fst]. left.
Qed.

Lemma parseValue_array (fuel : nat) (s1 : js_string) :
  parseValue (S fuel) (91%N :: s1)
  = match skipWs s1 with
    | [] => Throw SyntaxError
    | c1 :: s2 =>
        if (c1 =? 93)%N then Return (JArr [], s2)
        else '(vs, rest) ← parseElements fuel s1; Return (JArr vs, rest)
    end.
Proof. reflexivity. Qed.

Lemma parseValue_object (fuel : nat) (s1 : js_string) :
  parseValue (S fuel) (123%N :: s1)
  = match skipWs s1 with
    | [] => Throw SyntaxError
    | c1 :: s2 =>
        if (c1 =? 125)%N then Return (JObj [], s2)
        else '(ms, rest) ← parseMembers fuel s1;
             Return (JObj (mkObject ms), rest)
    end.
Proof. reflexivity. Qed.

Lemma parseValue_string (fuel : nat) (s1 : js_string) :
  parseValue (S fuel) (34%N :: s1)
  = '(str, rest) ← orSyntaxError (parseStringBody s1);
    Return (JStr str, rest).
Proof. reflexivity. Qed.

Lemma parseElements_S (fuel : nat) (s : js_string) :
  parseElements (S fuel) s
  = '(v, s1) ← parseValue fuel s;
    match skipWs s1 with
    | [] => Throw SyntaxError
    | c :: s2 =>
        if (c =? 44)%N then
          '(vs, rest) ← parseElements fuel s2; Return (v :: vs, rest)
        else if (c =? 93)%N then Return ([v], s2)
        else Throw SyntaxError
    end.
Proof. reflexivity. Qed.

Lemma parseMembers_string (fuel : nat) (s1 : js_string) :
  parseMembers (S fuel) (34%N :: s1)
  = '(k, s2) ← orSyntaxError (parseStringBody s1);
    match skipWs s2 with
    | [] => Throw SyntaxError
    | c :: s3 =>
        if (c =? 58)%N then
          '(v, s4) ← parseValue fuel s3;
          match skipWs s4 with
          | [] => Throw SyntaxError
          | d :: s5 =>
              if (d =? 44)%N then
                '(ms, rest) ← parseMembers fuel s5;
                Return ((k, v) :: ms, rest)
              else if (d =? 125)%N then Return ([(k, v)], s5)
              else Throw SyntaxError
          end
        else Throw SyntaxError
    end.
Proof. reflexivity. Qed.

Lemma parseElements_stringify (l : list json) :
  Forall reads_back l → l ≠ [] →
  ∀ fuel rest,
    forallb storable l = true →
    sum_list (map (λ x, S (weight x)) l) ≤ fuel →
    parseElements fuel (joinComma (map stringify l) ++ 93%N :: rest)
    = Return (l, rest).
Proof.
  induction 1 as [|x l Hx Hl IH]; [done|]. intros _ fuel rest Hst Hw.
  cbn [forallb] in Hst. apply andb_true_iff in Hst as [Hsx Hsl].
  simpl in Hw.
  destruct fuel as [|fuel]; [lia|].
  rewrite parseElements_S.
  destruct l as [|y l].
  - cbn [map joinComma]. rewrite Hx by (done || lia). reflexivity.
  - change (map stringify (x :: y :: l))
      with (stringify x :: stringify y :: map stringify l).
    rewrite joinComma_cons2, <- app_assoc.
    change (stringify y :: map stringify l) with (map stringify (y :: l)).
    rewrite Hx by (done || lia).
    cbn [mbind result_bind app skipWs isJSONWhiteSpace N.eqb Pos.eqb orb].
    rewrite (IH ltac:(done) fuel rest Hsl) by lia.
    reflexivity.
Qed.

Lemma parseMembers_stringify (m : list (js_string * json)) :
  Forall (λ kv, reads_back (snd kv)) m → m ≠ [] →
  ∀ fuel rest,
    forallb (λ kv, storable (snd kv)) m = true →
    sum_list (map (λ kv, S (weight (snd kv))) m) ≤ fuel →
    parseMembers fuel
      (joinComma
         (map (λ kv, quoteJSONString (fst kv) ++ 58%N :: stringify (snd kv))
            m)
       ++ 125%N :: rest)
    = Return (m, rest).
Proof.
  induction 1 as [|[k x] m Hx Hm IH]; [done|]. intros _ fuel rest Hst Hw.
  cbn [forallb snd] in Hst. apply andb_true_iff in Hst as [Hsx Hsm].
  cbn [snd] in Hx. simpl in Hw.
  destruct fuel as [|fuel]; [lia|].
  destruct m as [|y m].
  - cbn [map joinComma fst snd]. rewrite <- app_assoc.
    destruct (parseStringBody_quoteJSONString k
                ((58%N :: stringify x) ++ 125%N :: rest))
      as (t & -> & Ht).
    rewrite parseMembers_string, Ht.
    cbn [orSyntaxError mbind result_bind app skipWs isJSONWhiteSpace
         N.eqb Pos.eqb orb].
    rewrite Hx by (done || lia). reflexivity.
  - set (member := λ kv : js_string * json,
           quoteJSONString (fst kv) ++ 58%N :: stringify (snd kv)) in *.
    change (map member ((k, x) :: y :: m))
      with (member (k, x) :: member y :: map member m).
    rewrite joinComma_cons2.
    change (member y :: map member m) with (map member (y :: m)).
    unfold member at 1. cbn [fst snd]. rewrite <- !app_assoc.
    destruct (parseStringBody_quoteJSONString k
                ((58%N :: stringify x)
                 ++ (44%N :: joinComma (map member (y :: m)))
                 ++ 125%N :: rest))
      as (t & -> & Ht).
    rewrite parseMembers_string, Ht.
    cbn [orSyntaxError mbind result_bind app skipWs isJSONWhiteSpace
         N.eqb Pos.eqb orb].
    rewrite Hx by (done || lia).
    cbn [mbind result_bind app skipWs isJSONWhiteSpace N.eqb Pos.eqb orb].
    rewrite (IH ltac:(done) fuel rest Hsm) by lia.
    reflexivity.
Qed.

Lemma parseValue_array_nonempty (fuel : nat) (s1 t : js_string) (c : N) :
  s1 = c :: t → isJSONWhiteSpace c = false → (c =? 93)%N = false →
  parseValue (S fuel) (91%N :: s1)
  = '(vs, rest) ← parseElements fuel s1; Return (JArr vs, rest).
Proof.
  intros Hs Hws Hc. rewrite parseValue_array. rewrite Hs at 1.
  cbn [skipWs]. by rewrite Hws, Hc.
Qed.

Lemma parseValue_object_nonempty (fuel : nat) (s1 t : js_string) :
  s1 = 34%N :: t →
  parseValue (S fuel) (123%N :: s1)
  = '(ms, rest) ← parseMembers fuel s1; Return (JObj (mkObject ms), rest).
Proof. intros Hs. rewrite parseValue_object. by rewrite Hs at 1. Qed.

(** Every storable value is read back from its text. *)
Lemma reads_back_all (v : json) : reads_back v.
Proof.
  induction v as [|b|literal|s|l IHl|m IHm] using json_nested_ind;
    intros fuel rest Hst Hw; (destruct fuel as [|fuel]; [simpl in Hw; lia|]).
  - reflexivity.
  - by destruct b.
  - discriminate.
  - cbn [stringify].
    destruct (parseStringBody_quoteJSONString s rest) as (t & -> & Ht).
    by rewrite parseValue_string, Ht.
  - cbn [stringify] in *. cbn [app]. rewrite <- app_assoc. cbn [app].
    destruct l as [|x l]; [reflexivity|].
    assert (Hhead : ∃ c t,
              joinComma (map stringify (x :: l)) ++ 93%N :: rest = c :: t
              ∧ isJSONWhiteSpace c = false ∧ (c =? 93)%N = false).
    { cbn [storable forallb] in Hst. apply andb_true_iff in Hst as [Hsx _].
      destruct (stringify_head x Hsx) as (c & t & Hx & Hws & Hc).
      exists c. cbn [map]. rewrite Hx.
      destruct (map stringify l); eexists; (split; [reflexivity|done]). }
    destruct Hhead as (c & t & Hs1 & Hws & Hc).
    rewrite (parseValue_array_nonempty _ _ _ _ Hs1 Hws Hc).
    rewrite parseElements_stringify; [reflexivity|done|done|done|].
    simpl in Hw. simpl. lia.
  - cbn [stringify storable] in *. cbn [app]. rewrite <- app_assoc.
    cbn [app]. apply andb_true_iff in Hst as [Hnd Hst].
    apply bool_decide_eq_true_1 in Hnd.
    destruct m as [|[k x] m]; [reflexivity|].
    assert (Hhead : ∃ t,
              joinComma
                (map (λ kv, quoteJSONString (fst kv)
                            ++ 58%N :: stringify (snd kv)) ((k, x) :: m))
              ++ 125%N :: rest = 34%N :: t).
    { cbn [map]. destruct (map _ m); eexists; reflexivity. }
    destruct Hhead as (t & Hs1).
    rewrite (parseValue_object_nonempty _ _ _ Hs1).
    rewrite parseMembers_stringify; [|done|done|done|simpl in Hw; simpl; lia].
    cbn [mbind result_bind]. by rewrite mkObject_NoDup.
Qed.

Lemma sum_weight_length {A : Type} (w : A → nat) (text : A → js_string)
    (l : list A) :
  Forall (λ x, w x ≤ 2 * length (text x)) l →
  sum_list (map (λ x, S (w x)) l) ≤ 2 * length (joinComma (map text l)) + 2.
Proof.
  induction 1 as [|x l Hx Hl IH]; [simpl; lia|].
  destruct l as [|y l]; [simpl; lia|].
  change (map text (x :: y :: l)) with (text x :: text y :: map text l).
  rewrite joinComma_cons2.
  change (text y :: map text l) with (map text (y :: l)).
  rewrite length_app. cbn [length].
  change (sum_list (map (λ x, S (w x)) (x :: y :: l)))
    with (S (w x) + sum_list (map (λ x, S (w x)) (y :: l))).
  lia.
Qed.

(** The budget [JSON_parse] starts with covers the weight of the value. *)
Lemma weight_length (v : json) :
  storable v = true → weight v ≤ 2 * length (stringify v).
Proof.
  induction v as [|b|literal|s|l IHl|m IHm] using json_nested_ind;
    intros Hst.
  - simpl. lia.
  - destruct b; simpl; lia.
  - discriminate.
  - simpl. lia.
  - cbn [stringify weight storable] in *. cbn [length].
    rewrite length_app. cbn [length].
    pose proof (sum_weight_length weight stringify l) as Hsum.
    assert (Forall (λ x, weight x ≤ 2 * length (stringify x)) l) as Hall.
    { rewrite Forall_forall in IHl. apply Forall_forall. intros x Hx.
      apply IHl; [done|]. rewrite forallb_forall in Hst.
      apply Hst. by apply list_elem_of_In. }
    specialize (Hsum Hall). lia.
  - cbn [stringify weight storable] in *. cbn [length].
    rewrite length_app. cbn [length].
    apply andb_true_iff in Hst as [_ Hst].
    pose proof (sum_weight_length (λ kv, weight (snd kv))
                  (λ kv, quoteJSONString (fst kv)
                         ++ 58%N :: stringify (snd kv)) m) as Hsum.
    assert (Forall (λ kv : js_string * json,
              weight (snd kv)
              ≤ 2 * length (quoteJSONString (fst kv)
                            ++ 58%N :: stringify (snd kv))) m) as Hall.
    { rewrite Forall_forall in IHm. apply Forall_forall. intros kv Hkv.
      rewrite length_app. cbn [length].
      assert (weight (snd kv) ≤ 2 * length (stringify (snd kv))); [|lia].
      apply IHm; [done|]. rewrite forallb_forall in Hst.
      apply Hst. by apply list_elem_of_In. }
    specialize (Hsum Hall). lia.
Qed.

(** [JSON.parse(JSON.stringify(v))] is [v] for a storable [v]. *)
Lemma JSON_parse_stringify (v : json) :
  storable v = true → JSON_parse (JSON_stringify v) = Return v.
Proof.
  intros Hst. unfold JSON_parse, JSON_stringify.
  rewrite <- (app_nil_r (stringify v)) at 2.
  rewrite reads_back_all; [reflexivity|done|].
  pose proof (weight_length v Hst). lia.
Qed.

(** ** [JSON.parse] ends: the recursion budget is never exhausted *)

Lemma skipWs_length (s : js_string) : length (skipWs s) ≤ length s.
Proof.
  induction s as [|c s IH]; [done|]. cbn [skipWs].
  destruct (isJSONWhiteSpace c); cbn [length]; lia.
Qed.

Lemma skipWs_cons_length (s t : js_string) (c : N) :
  skipWs s = c :: t → length t < length s.
Proof.
  intros H. pose proof (skipWs_length s) as L. rewrite H in L.
  cbn [length] in L. lia.
Qed.

Lemma fmap_consUnit_Some (c : N) (o : option (js_string * js_string))
    (x rest : js_string) :
  consUnit c <$> o = Some (x, rest) → ∃ x', o = Some (x', rest).
Proof.
  destruct o as [[x' r]|]; [|discriminate]. cbn. intros H.
  injection H as _ ->. eauto.
Qed.

Lemma parseStringBody_length (s x rest : js_string) :
  parseStringBody s = Some (x, rest) → length rest < length s.
Proof.
  remember (length s) as n eqn:Hn.
  assert (Hle : length s ≤ n) by lia. clear Hn.
  revert s x rest Hle. induction n as [|n IH]; intros s x rest Hle H.
  - destruct s; [discriminate|cbn [length] in Hle; lia].
  - destruct s as [|c s1]; [discriminate|]. cbn [length] in *.
    cbn [parseStringBody] in H.
    destruct (c =? 34)%N; [injection H as _ ->; lia|].
    destruct (c =? 92)%N.
    + destruct s1 as [|e s2]; [discriminate|]. cbn [length] in *.
      destruct (e =? 117)%N.
      * destruct s2 as [|h1 [|h2 [|h3 [|h4 s3]]]]; try discriminate.
        cbn [length] in *.
        destruct (hexValue h1), (hexValue h2), (hexValue h3), (hexValue h4);
          try discriminate.
        apply fmap_consUnit_Some in H as [x' H].
        apply IH in H; lia.
      * destruct (unescape e); [|discriminate].
        apply fmap_consUnit_Some in H as [x' H].
        apply IH in H; lia.
    + destruct (c <? 32)%N; [discriminate|].
      apply fmap_consUnit_Some in H as [x' H].
      apply IH in H; lia.
Qed.

Lemma spanDigits_length (s : js_string) :
  length (snd (spanDigits s)) ≤ length s.
Proof.
  induction s as [|c s IH]; [done|]. cbn [spanDigits].
  destruct (isDigit c); cbn [consUnit snd length]; lia.
Qed.

Lemma spanDigits_eq_length (s ds rest : js_string) :
  spanDigits s = (ds, rest) → length rest ≤ length s.
Proof.
  intros H. pose proof (spanDigits_length s) as L. by rewrite H in L.
Qed.

Lemma stripPrefix_length (p s rest : js_string) :
  stripPrefix p s = Some rest → length rest ≤ length s.
Proof.
  revert s. induction p as [|a p IH]; intros s H.
  - destruct s; injection H as ->; lia.
  - destruct s as [|b s]; [discriminate|]. cbn [stripPrefix] in H.
    destruct (a =? b)%N; [|discriminate]. apply IH in H.
    cbn [length]. lia.
Qed.

(** Case analysis on everything a parser's result depends on. *)
Ltac split_parse H :=
  repeat first
    [ discriminate H
    | progress unfold consUnit, mbind, result_bind in H
    | progress cbn [mbind option_bind result_bind orSyntaxError fmap
                    option_fmap option_map fst snd] in H
    | match type of H with
      | context [if ?b then _ else _] => destruct b eqn:?
      | context [match ?x with _ => _ end] => destruct x eqn:?
      end ].

Lemma orSyntaxError_Return {A : Type} (o : option A) (a : A) :
  orSyntaxError o = Return a → o = Some a.
Proof. destruct o; [|discriminate]. intros H. by injection H as ->. Qed.

Ltac length_facts :=
  repeat match goal with
    | H : orSyntaxError _ = Return _ |- _ => apply orSyntaxError_Return in H
    | H : skipWs _ = _ :: _ |- _ => apply skipWs_cons_length in H
    | H : parseStringBody _ = Some _ |- _ => apply parseStringBody_length in H
    | H : spanDigits _ = _ |- _ => apply spanDigits_eq_length in H
    | H : snd (spanDigits ?s) = _ |- _ =>
        let L := fresh in
        pose proof (spanDigits_length s) as L; rewrite H in L; clear H
    | H : stripPrefix _ _ = Some _ |- _ => apply stripPrefix_length in H
    end;
  cbn [length] in *.

Lemma parseNumber_length (s literal rest : js_string) :
  parseNumber s = Some (literal, rest) → length rest < length s.
Proof.
  unfold parseNumber, parseUnsigned, parseInt, parseFrac, parseExp.
  intros H. split_parse H; simplify_eq; length_facts; lia.
Qed.

Ltac token_facts :=
  length_facts;
  repeat match goal with
    | H : parseNumber _ = Some _ |- _ => apply parseNumber_length in H
    end;
  cbn [length] in *.

(** Whatever is read takes at least one character. *)
Lemma parse_progress (fuel : nat) :
  (∀ s v rest, parseValue fuel s = Return (v, rest) →
               length rest < length s)
  ∧ (∀ s vs rest, parseElements fuel s = Return (vs, rest) →
                  length rest < length s)
  ∧ (∀ s ms rest, parseMembers fuel s = Return (ms, rest) →
                  length rest < length s).
Proof.
  induction fuel as [|fuel (IHv & IHe & IHm)];
    [repeat split; intros; discriminate|].
  repeat split.
  - intros s v rest H. cbn [parseValue] in H.
    split_parse H; simplify_eq;
      repeat match goal with
        | E : parseElements fuel _ = Return _ |- _ => apply IHe in E
        | E : parseMembers fuel _ = Return _ |- _ => apply IHm in E
        end;
      token_facts; lia.
  - intros s vs rest H. cbn [parseElements] in H.
    split_parse H; simplify_eq;
      repeat match goal with
        | E : parseValue fuel _ = Return _ |- _ => apply IHv in E
        | E : parseElements fuel _ = Return _ |- _ => apply IHe in E
        end;
      token_facts; lia.
  - intros s ms rest H. cbn [parseMembers] in H.
    split_parse H; simplify_eq;
      repeat match goal with
        | E : parseValue fuel _ = Return _ |- _ => apply IHv in E
        | E : parseMembers fuel _ = Return _ |- _ => apply IHm in E
        end;
      token_facts; lia.
Qed.

(** Twice the length of the text, and a little more, is budget enough. *)
Lemma parse_fuel (fuel : nat) :
  (∀ s, 2 * length s + 2 ≤ fuel → parseValue fuel s ≠ OutOfFuel)
  ∧ (∀ s, 2 * length s + 3 ≤ fuel → parseElements fuel s ≠ OutOfFuel)
  ∧ (∀ s, 2 * length s + 3 ≤ fuel → parseMembers fuel s ≠ OutOfFuel).
Proof.
  induction fuel as [|fuel (IHv & IHe & IHm)];
    [repeat split; intros; lia|].
  destruct (parse_progress fuel) as (Pv & Pe & Pm).
  repeat split.
  - intros s Hs H. cbn [parseValue] in H.
    split_parse H; simplify_eq;
      match goal with
      | E : orSyntaxError ?o = OutOfFuel |- _ => by destruct o
      | E : parseElements fuel _ = OutOfFuel |- _ => revert E; apply IHe
      | E : parseMembers fuel _ = OutOfFuel |- _ => revert E; apply IHm
      end;
      token_facts; lia.
  - intros s Hs H. cbn [parseElements] in H.
    split_parse H; simplify_eq;
      repeat match goal with
        | E : parseValue fuel _ = Return _ |- _ => apply Pv in E
        end;
      match goal with
      | E : orSyntaxError ?o = OutOfFuel |- _ => by destruct o
      | E : parseValue fuel _ = OutOfFuel |- _ => revert E; apply IHv
      | E : parseElements fuel _ = OutOfFuel |- _ => revert E; apply IHe
      end;
      token_facts; lia.
  - intros s Hs H. cbn [parseMembers] in H.
    split_parse H; simplify_eq;
      repeat match goal with
        | E : parseValue fuel _ = Return _ |- _ => apply Pv in E
        end;
      match goal with
      | E : orSyntaxError ?o = OutOfFuel |- _ => by destruct o
      | E : parseValue fuel _ = OutOfFuel |- _ => revert E; apply IHv
      | E : parseMembers fuel _ = OutOfFuel |- _ => revert E; apply IHm
      end;
      token_facts; lia.
Qed.

(** [JSON_parse] returns a value or throws, on every text. *)
Lemma JSON_parse_total (text : js_string) : JSON_parse text ≠ OutOfFuel.
Proof.
  unfold JSON_parse. intros H.
  destruct (parseValue (2 * length text + 2) text) as [[v rest]| |] eqn:E.
  - cbn in H. by destruct (skipWs rest).
  - discriminate.
  - revert E. by apply parse_fuel.
Qed.

(** ** Stored collections *)

Lemma forallb_fmap_true {A B : Type} (p : B → bool) (f : A → B)
    (l : list A) :
  (∀ x, p (f x) = true) → forallb p (f <$> l) = true.
Proof.
  intros H. induction l as [|x l IH]; [reflexivity|].
  rewrite fmap_cons. cbn [forallb]. by rewrite H, IH.
Qed.

Lemma commentToJS_storable (c : Comment.t) : storable (commentToJS c) = true.
Proof. reflexivity. Qed.

Lemma issueToJS_storable (it : Issue.t) : storable (issueToJS it) = true.
Proof.
  unfold issueToJS. cbn [storable forallb snd].
  rewrite (forallb_fmap_true storable commentToJS)
    by apply commentToJS_storable.
  reflexivity.
Qed.

(** The value of a collection of issue records is storable, and
    determines the collection. *)
Lemma issuesToJS_storable (C : list Issue.t) : storable (issuesToJS C) = true.
Proof. apply forallb_fmap_true, issueToJS_storable. Qed.

Lemma commentToJS_inj (c c' : Comment.t) :
  commentToJS c = commentToJS c' → c = c'.
Proof. destruct c, c'. unfold commentToJS. simpl. congruence. Qed.

Lemma fmap_inj_list {A B : Type} (f : A → B) (l l' : list A) :
  (∀ x y, f x = f y → x = y) → f <$> l = f <$> l' → l = l'.
Proof.
  intros Hf. revert l'. induction l as [|x l IH]; intros [|y l'] H;
    try discriminate; [reflexivity|].
  rewrite !fmap_cons in H. injection H as Hxy Hl.
  f_equal; auto.
Qed.

Lemma issueToJS_inj (it it' : Issue.t) :
  issueToJS it = issueToJS it' → it = it'.
Proof.
  destruct it, it'. unfold issueToJS. simpl. intros H.
  injection H as -> -> -> -> -> Hc -> ->.
  f_equal. eapply fmap_inj_list; [apply commentToJS_inj | exact Hc].
Qed.

Lemma issuesToJS_inj (C C' : list Issue.t) :
  issuesToJS C = issuesToJS C' → C = C'.
Proof.
  unfold issuesToJS. intros H. injection H as H.
  eapply fmap_inj_list; [apply issueToJS_inj | exact H].
Qed.

Lemma getItem_save (C : list Issue.t) (ls : localStorage) :
  getItem KEY (save C ls) = Some (JSON_stringify (issuesToJS C)).
Proof. unfold getItem, save, setItem. apply lookup_insert_eq. Qed.

(** Loading what [save] stored gives the collection back. *)
Lemma load_save (C : list Issue.t) (ls : localStorage) :
  load (save C ls) = Return (issuesToJS C).
Proof.
  unfold load, loadEffect. rewrite getItem_save.
  rewrite JSON_parse_stringify by apply issuesToJS_storable.
  reflexivity.
Qed.

(** ** C1: status changes and broadcasts *)

(** C1, as stated, fails: the water-main broadcast has status "Update",
    and [changeStatus] with its id and "Resolved" replaces its status. *)
Lemma changeStatus_broadcast_counterexample :
  State.issues announced = [waterBroadcast]
  ∧ Issue.status waterBroadcast = js "Update"
  ∧ State.issues
      (changeStatus (Issue.id waterBroadcast) (js "Resolved") announced)
    = [Issue.with_status waterBroadcast (js "Resolved")]
  ∧ State.issues
      (changeStatus (Issue.id waterBroadcast) (js "Resolved") announced)
    ≠ State.issues announced.
Proof. split; [|split; [|split]]; [reflexivity..|by_compute]. Qed.

(** C1, amended: [changeStatus] itself replaces the status of every issue
    with the given id, a broadcast included; what keeps a broadcast's
    status is [IssueDetail], which renders no status button for an issue
    whose status is "Update": for such an issue, whatever the role and
    whatever callbacks the component was given, a click on "Mark In
    Progress" or "Mark Resolved" reaches no handler and leaves the parent's
    state as it was; so it is in [App] while that issue is selected. *)
Theorem changeStatus_broadcast_guarded_by_view
    {S : Type}
    (onComment onChangeStatus : js_string → js_string → S → S)
    (onDelete : js_string → S → S)
    (setModalMessage : js_string → S → S)
    (currentRole text newStatus : js_string)
    (issue : Issue.t) (parent : S) (st : State.t) :
  Issue.status issue = js "Update" →
  ((IssueDetail.MarkInProgress, false)
     ∉ IssueDetail.buttons currentRole issue)
  ∧ ((IssueDetail.MarkResolved, false)
     ∉ IssueDetail.buttons currentRole issue)
  ∧ IssueDetail.click onComment onChangeStatus onDelete setModalMessage
      currentRole issue IssueDetail.MarkInProgress text parent
    = (text, parent)
  ∧ IssueDetail.click onComment onChangeStatus onDelete setModalMessage
      currentRole issue IssueDetail.MarkResolved text parent
    = (text, parent)
  ∧ (issue ∈ State.issues st →
     Issue.with_status issue newStatus
       ∈ State.issues (changeStatus (Issue.id issue) newStatus st))
  ∧ (State.selected st = Some issue →
     ∀ clk,
       App_clickDetail clk IssueDetail.MarkInProgress text st = (text, st)
       ∧ App_clickDetail clk IssueDetail.MarkResolved text st = (text, st)).
Proof.
  intros Hupd.
  assert (Hno : ∀ r b, b = IssueDetail.MarkInProgress
                       ∨ b = IssueDetail.MarkResolved →
                (b, false) ∉ IssueDetail.buttons r issue).
  { intros r b Hb Hin. unfold IssueDetail.buttons in Hin.
    unfold IssueDetail.isBroadcast in Hin.
    rewrite (bool_decide_eq_true_2 _ Hupd), andb_false_r in Hin.
    simpl in Hin.
    apply elem_of_cons in Hin as [Hin|Hin];
      [destruct Hb; simplify_eq|].
    destruct (IssueDetail.isAdmin r);
      [apply list_elem_of_singleton in Hin; destruct Hb; simplify_eq
      |by apply elem_of_nil in Hin]. }
  assert (Hclick : ∀ (T : Type) (c1 c2 : js_string → js_string → T → T)
                     (c3 c4 : js_string → T → T) (r : js_string) (p : T) b,
            b = IssueDetail.MarkInProgress ∨ b = IssueDetail.MarkResolved →
            (b, false) ∉ IssueDetail.buttons r issue →
            IssueDetail.click c1 c2 c3 c4 r issue b text p = (text, p)).
  { intros T c1 c2 c3 c4 r p b Hb Hb'.
    unfold IssueDetail.click, IssueDetail.clickable.
    by rewrite (bool_decide_eq_false_2 _ Hb'). }
  split; [auto|]. split; [auto|]. split; [auto|]. split; [auto|].
  split.
  - intros Hin. rewrite changeStatus_issues.
    apply list_elem_of_fmap. exists issue. split; [|done].
    by rewrite decide_True.
  - intros Hsel clk. unfold App_clickDetail. rewrite Hsel.
    split; apply Hclick; auto.
Qed.

Lemma changeStatus_broadcast_guarded_by_view_witness :
  Issue.status waterBroadcast = js "Update"
  ∧ IssueDetail.click (addComment noon) changeStatus deleteIssue showModal
      (js "Moderator") waterBroadcast IssueDetail.MarkResolved []
      announced
    = ([], announced).
Proof.
  split; [reflexivity|].
  apply (changeStatus_broadcast_guarded_by_view
           (addComment noon) changeStatus deleteIssue showModal
           (js "Moderator") [] (js "Resolved") waterBroadcast announced
           announced).
  reflexivity.
Defined.

(** ** C2: loading the snapshot *)

(** C2, as stated, fails: a snapshot that is not JSON text makes [load]
    throw, where the claim has it return the empty sequence; and a
    snapshot that is JSON text of another shape is returned as it is. *)
Lemma load_corrupt_counterexample :
  load {[ KEY := js "{" ]} = Throw SyntaxError
  ∧ load {[ KEY := js "not json" ]} = Throw SyntaxError
  ∧ load {[ KEY := js "5" ]} = Return (JNum (js "5")).
Proof. vm_compute. auto. Qed.

(** C2, amended: [load] returns the empty sequence when no snapshot is
    stored or the stored string is empty, and the collection [C] when the
    snapshot is the one [save] wrote for [C].  It neither validates nor
    recovers: for any other snapshot it ends as [JSON.parse] does on it,
    with the parsed value whatever its shape, or with the SyntaxError that
    [JSON.parse] throws on text that is not JSON. *)
Theorem load_absent_saved_or_unparsed (ls : localStorage) :
  (getItem KEY ls = None → load ls = Return (issuesToJS []))
  ∧ (getItem KEY ls = Some [] → load ls = Return (issuesToJS []))
  ∧ (∀ C, load (save C ls) = Return (issuesToJS C))
  ∧ (∀ saved, getItem KEY ls = Some saved → saved ≠ [] →
       load ls = JSON_parse saved)
  ∧ (∀ saved e, getItem KEY ls = Some saved → saved ≠ [] →
       JSON_parse saved = Throw e → load ls = Throw e)
  ∧ load ls ≠ OutOfFuel.
Proof.
  assert (Hsome : ∀ saved, getItem KEY ls = Some saved → saved ≠ [] →
                    load ls = JSON_parse saved).
  { intros saved Hg Hne. unfold load, loadEffect. rewrite Hg.
    by destruct saved. }
  repeat split.
  - intros Hg. unfold load, loadEffect. by rewrite Hg.
  - intros Hg. unfold load, loadEffect. by rewrite Hg.
  - intros C. apply load_save.
  - exact Hsome.
  - intros saved e Hg Hne He. by rewrite (Hsome saved Hg Hne).
  - unfold load, loadEffect.
    destruct (getItem KEY ls) as [saved|]; [|done].
    destruct (truthy saved); [apply JSON_parse_total | done].
Qed.

(** ** C3: blank input *)

(** C3, as stated, fails: the core callbacks take blank text as it comes.
    [addIssue] with an empty title or an empty description grows the
    collection, [postUpdate] with empty text as well, and [addComment]
    with empty text appends a comment. *)
Lemma blank_input_counterexample :
  trim [] = []
  ∧ length (State.issues State.init) = 0
  ∧ length (State.issues
              (addIssue noon [] (js "x") (js "General") State.init)) = 1
  ∧ length (State.issues
              (addIssue noon (js "x") [] (js "General") State.init)) = 1
  ∧ length (State.issues (postUpdate noon [] (js "General") State.init)) = 1
  ∧ Issue.comments <$> State.issues pothole = [[]]
  ∧ Issue.comments <$>
      State.issues (addComment later (Issue.id potholeIssue) [] pothole)
    = [[Comment.mk (js "1730000060000") (js "Citizen") []
          (js "10/27/2024, 12:01:00 PM")]].
Proof. vm_compute. auto 10. Qed.

(** C3, amended: the guard against blank input is in the submit handlers
    of the components, not in the core callbacks.  When the title or the
    description is empty after trimming, [IssueForm]'s [submit] returns
    without calling [onSubmit]; when the comment text is, the comment
    form returns without calling [onComment]; when the broadcast text is,
    [Broadcast]'s [send] returns without calling [postUpdate].  In each
    case the collection, and the text typed so far, stay as they were. *)
Theorem blank_input_guarded_by_handlers
    {S : Type}
    (onSubmit : js_string → js_string → js_string → S → S)
    (onComment postUpdate' : js_string → js_string → S → S)
    (setModalMessage : js_string → S → S)
    (f : IssueForm.t) (issue : Issue.t) (text : js_string)
    (b : Broadcast.t) (parent : S) (clk : Clock.t) (st : State.t) :
  trim (IssueForm.title f) = [] ∨ trim (IssueForm.description f) = [] →
  trim text = [] →
  trim (Broadcast.msg b) = [] →
  IssueForm.submit onSubmit f parent = (f, parent)
  ∧ IssueDetail.submitComment onComment issue text parent = (text, parent)
  ∧ Broadcast.send postUpdate' setModalMessage (js "Politician") b parent
    = (b, parent)
  ∧ App_submitIssue clk f st = (f, st)
  ∧ App_clickDetail clk IssueDetail.AddComment text st = (text, st)
  ∧ fst (App_sendBroadcast clk b st) = b
  ∧ State.issues (snd (App_sendBroadcast clk b st)) = State.issues st.
Proof.
  intros Hf Ht Hb.
  assert (Hsub : ∀ (T : Type) (k : js_string → js_string → js_string → T → T)
                   (p : T), IssueForm.submit k f p = (f, p)).
  { intros T k p. unfold IssueForm.submit.
    destruct Hf as [-> | ->]; simpl; [done|].
    by rewrite orb_true_r. }
  repeat split.
  - apply Hsub.
  - unfold IssueDetail.submitComment. by rewrite Ht.
  - unfold Broadcast.send. simpl. by rewrite Hb.
  - unfold App_submitIssue. case_decide; [apply Hsub | done].
  - unfold App_clickDetail, IssueDetail.click.
    destruct (State.selected st) as [sel|]; [|done].
    destruct (IssueDetail.clickable _ _ _); [|done].
    unfold IssueDetail.submitComment. by rewrite Ht.
  - unfold App_sendBroadcast, Broadcast.send.
    destruct (Broadcast.isPolitician (State.role st)); simpl; [|done].
    by rewrite Hb.
  - unfold App_sendBroadcast, Broadcast.send.
    destruct (Broadcast.isPolitician (State.role st)); simpl; [|done].
    by rewrite Hb.
Qed.

Lemma blank_input_guarded_by_handlers_witness :
  IssueForm.submit (addIssue noon)
    (IssueForm.mk (js "   ") (js "x") (js "General")) pothole
  = (IssueForm.mk (js "   ") (js "x") (js "General"), pothole).
Proof.
  apply (blank_input_guarded_by_handlers
           (addIssue noon) (addComment noon) (postUpdate noon) showModal
           (IssueForm.mk (js "   ") (js "x") (js "General"))
           potholeIssue (js " ") (Broadcast.mk (js "  ") (js "Water"))
           pothole noon pothole);
    [left; reflexivity | reflexivity | reflexivity].
Defined.

(** ** C4: the persistence round trip *)

(** C4: for every collection [C], [save] stores the JSON text of [C] under
    the key, and [load] after it returns the value of [C], its issues in
    their order with all their fields; no other collection loads to the
    same value. *)
Theorem load_save_roundtrip (C : list Issue.t) (ls : localStorage) :
  getItem KEY (save C ls) = Some (JSON_stringify (issuesToJS C))
  ∧ load (save C ls) = Return (issuesToJS C)
  ∧ ∀ C', load (save C' ls) = load (save C ls) → C' = C.
Proof.
  split; [apply getItem_save|]. split; [apply load_save|].
  intros C' H. rewrite !load_save in H.
  apply issuesToJS_inj. congruence.
Qed.

(** ** C5: deletion *)

(** C5, as stated, fails: a Citizen who requests a deletion is denied with
    a notice that does not name the current role. *)
Lemma deleteIssue_notice_counterexample :
  State.role pothole = js "Citizen"
  ∧ State.modalMessage (deleteIssue (Issue.id potholeIssue) pothole)
    = Some deleteDenied
  ∧ includes deleteDenied (State.role pothole) = false.
Proof. vm_compute. auto. Qed.

(** C5, amended: [deleteIssue] is Admin-gated.  For every role other than
    "Admin" it leaves the collection and the selection unchanged and shows
    the fixed notice "Error: Only Admin users are authorized to delete
    reports.", which names the attempted action and the role it takes, not
    the current role.  For "Admin" it keeps exactly the issues whose id
    differs from the given one, in their order, and it changes nothing in
    the collection when the id is absent. *)
Theorem deleteIssue_admin_gated (issueId : js_string) (st : State.t) :
  (State.role st ≠ js "Admin" →
     State.issues (deleteIssue issueId st) = State.issues st
     ∧ State.selected (deleteIssue issueId st) = State.selected st
     ∧ State.modalMessage (deleteIssue issueId st) = Some deleteDenied)
  ∧ (State.role st = js "Admin" →
     State.issues (deleteIssue issueId st)
     = filter (λ it, Issue.id it ≠ issueId) (State.issues st)
     ∧ (∀ it, it ∈ State.issues (deleteIssue issueId st)
              ↔ it ∈ State.issues st ∧ Issue.id it ≠ issueId)
     ∧ State.issues (deleteIssue issueId st) `sublist_of` State.issues st
     ∧ (issueId ∉ Issue.id <$> State.issues st →
        State.issues (deleteIssue issueId st) = State.issues st)
     ∧ State.modalMessage (deleteIssue issueId st) = State.modalMessage st)
  ∧ includes deleteDenied (js "delete reports") = true
  ∧ includes deleteDenied (js "Admin") = true.
Proof.
  split; [|split; [|split; reflexivity]].
  - intros Hr. by rewrite deleteIssue_denied.
  - intros Hr. rewrite deleteIssue_admin by done. simpl.
    split; [reflexivity|]. split; [|split; [|split]].
    + intros it. rewrite list_elem_of_filter. tauto.
    + apply sublist_filter.
    + intros Hno. by apply filter_unchanged, absent_id_Forall.
    + reflexivity.
Qed.

(** ** C6: the selection after a mutation *)

(** [issues.find(i => i.id === selected.id)] finds an issue with that id
    exactly when there is one. *)
Lemma find_id_spec (C : list Issue.t) (sel : Issue.t) :
  match find (λ i, bool_decide (Issue.id i = Issue.id sel)) C with
  | Some it => it ∈ C ∧ Issue.id it = Issue.id sel
  | None => Issue.id sel ∉ Issue.id <$> C
  end.
Proof.
  destruct (find _ C) as [it|] eqn:Hf.
  - apply find_some in Hf as [Hin Hid].
    apply list_elem_of_In in Hin. by apply bool_decide_eq_true_1 in Hid.
  - intros Hin. apply list_elem_of_fmap in Hin as (it & Hid & Hit).
    apply list_elem_of_In in Hit.
    pose proof (find_none _ _ Hf it Hit) as Hno. simpl in Hno.
    by apply bool_decide_eq_false_1 in Hno.
Qed.

Lemma issuesEffect_selected (st : State.t) (ls : localStorage) :
  State.selected (fst (issuesEffect st ls))
  = sel ← State.selected st;
    find (λ i, bool_decide (Issue.id i = Issue.id sel)) (State.issues st).
Proof.
  unfold issuesEffect. destruct (State.selected st) as [sel|] eqn:Hsel;
    simpl; [|by rewrite Hsel].
  by destruct (find _ _).
Qed.

Lemma issuesEffect_issues (st : State.t) (ls : localStorage) :
  State.issues (fst (issuesEffect st ls)) = State.issues st.
Proof.
  unfold issuesEffect. destruct (State.selected st); [|done].
  by destruct (find _ _).
Qed.

(** C6, as stated, fails: with two reports, the older one selected, an
    Admin who deletes the newer one loses the selection although the
    selected issue is still in the collection. *)
Lemma delete_other_clears_selection_counterexample :
  State.selected twoReports = Some potholeIssue
  ∧ Issue.id <$> State.issues twoReports
    = [js "1730000060000"; Issue.id potholeIssue]
  ∧ State.issues
      (fst (dispatch later (DeleteIssue (js "1730000060000"))
              (twoReports, ∅)))
    = [potholeIssue]
  ∧ State.selected
      (fst (dispatch later (DeleteIssue (js "1730000060000"))
              (twoReports, ∅)))
    = None.
Proof. vm_compute. auto. Qed.

(** C6, amended: after [addIssue], [addComment], [postUpdate] and
    [changeStatus], the effect resolves the selection against the new
    collection: it is cleared when no issue has the selected id, and
    otherwise replaced by the first issue of the new collection with that
    id.  [deleteIssue] by an Admin clears the selection whichever issue it
    deletes; a denied [deleteIssue] leaves it as it was. *)
Theorem selection_resolved_after_mutation
    (clk : Clock.t) (a : action) (st : State.t) (ls : localStorage)
    (sel : Issue.t) :
  State.selected st = Some sel →
  (∀ issueId, a ≠ DeleteIssue issueId) →
  let st' := fst (dispatch clk a (st, ls)) in
  State.issues st' = State.issues (perform clk a st)
  ∧ State.selected st'
    = find (λ i, bool_decide (Issue.id i = Issue.id sel)) (State.issues st')
  ∧ (Issue.id sel ∉ Issue.id <$> State.issues st' →
     State.selected st' = None)
  ∧ (Issue.id sel ∈ Issue.id <$> State.issues st' →
     ∃ it, State.selected st' = Some it
           ∧ it ∈ State.issues st' ∧ Issue.id it = Issue.id sel)
  ∧ ∀ issueId,
      State.selected (fst (dispatch clk (DeleteIssue issueId) (st, ls)))
      = if decide (State.role st = js "Admin") then None else Some sel.
Proof.
  intros Hsel Ha st'.
  assert (Hst' : st' = fst (issuesEffect (perform clk a st) ls)).
  { subst st'. unfold dispatch. simpl.
    destruct a; try reflexivity. by destruct (Ha issueId). }
  assert (Hps : State.selected (perform clk a st) = Some sel).
  { destruct a; try exact Hsel. by destruct (Ha issueId). }
  assert (Hi : State.issues st' = State.issues (perform clk a st)).
  { rewrite Hst'. apply issuesEffect_issues. }
  assert (Hf : State.selected st'
               = find (λ i, bool_decide (Issue.id i = Issue.id sel))
                   (State.issues st')).
  { rewrite Hi, Hst', issuesEffect_selected, Hps. reflexivity. }
  split; [exact Hi|]. split; [exact Hf|].
  pose proof (find_id_spec (State.issues st') sel) as Hspec.
  rewrite <- Hf in Hspec.
  split; [|split].
  - intros Hno. destruct (State.selected st') as [it|]; [|done].
    destruct Hspec as [Hin Hid]. destruct Hno.
    apply list_elem_of_fmap. eauto.
  - intros Hin. destruct (State.selected st') as [it|]; [|done].
    exists it. tauto.
  - intros issueId. unfold dispatch. simpl.
    destruct (decide (State.role st = js "Admin")) as [Hr|Hr].
    + rewrite (bool_decide_eq_true_2 _ Hr), issuesEffect_selected.
      by rewrite deleteIssue_admin.
    + rewrite (bool_decide_eq_false_2 _ Hr). simpl.
      by rewrite deleteIssue_denied.
Qed.

Lemma selection_resolved_after_mutation_witness :
  State.selected
    (fst (dispatch later
            (ChangeStatus (Issue.id potholeIssue) (js "In Progress"))
            (twoReports, ∅)))
  = find (λ i, bool_decide (Issue.id i = Issue.id potholeIssue))
      (State.issues
         (fst (dispatch later
                 (ChangeStatus (Issue.id potholeIssue) (js "In Progress"))
                 (twoReports, ∅)))).
Proof.
  apply (selection_resolved_after_mutation later
           (ChangeStatus (Issue.id potholeIssue) (js "In Progress"))
           twoReports ∅ potholeIssue);
    [reflexivity | discriminate].
Defined.
(** ** C7: filing an issue *)

(** C7, as stated, fails: the id is the clock reading, so a second report
    filed within the same millisecond takes an id that the collection
    already holds. *)
Lemma addIssue_fresh_id_counterexample :
  trim (js "Leak") = js "Leak"
  ∧ trim (js "Water leak on 3rd") = js "Water leak on 3rd"
  ∧ Issue.id <$> State.issues pothole = [js "1730000000000"]
  ∧ Issue.id <$>
      State.issues
        (addIssue noon (js "Leak") (js "Water leak on 3rd") (js "Water")
           pothole)
    = [js "1730000000000"; js "1730000000000"].
Proof. vm_compute. auto. Qed.

(** C7, amended: for every title, description and category (valid ones
    included), [addIssue] puts one new issue in front of the collection,
    which is otherwise unchanged; the new issue has the given title,
    description and category, status "Open", no comments, the clock's
    locale string as [createdAt], the current role as [reporterRole] and
    the decimal clock reading as id.  That id is not previously present
    provided every issue already in the collection carries the reading of
    an earlier millisecond. *)
Theorem addIssue_prepends_open_issue
    (clk : Clock.t) (title description category : js_string)
    (st : State.t) :
  Forall (λ it, ∃ t, (t < Clock.now clk)%N ∧ Issue.id it = toString t)
    (State.issues st) →
  ∃ newIssue,
    State.issues (addIssue clk title description category st)
    = newIssue :: State.issues st
    ∧ Issue.title newIssue = title
    ∧ Issue.description newIssue = description
    ∧ Issue.category newIssue = category
    ∧ Issue.status newIssue = js "Open"
    ∧ Issue.comments newIssue = []
    ∧ Issue.createdAt newIssue = Clock.toLocaleString clk
    ∧ Issue.reporterRole newIssue = State.role st
    ∧ Issue.id newIssue = toString (Clock.now clk)
    ∧ Issue.id newIssue ∉ Issue.id <$> State.issues st.
Proof.
  intros Hold. eexists. split; [reflexivity|]. simpl.
  repeat split.
  intros Hin. apply list_elem_of_fmap in Hin as (it & Hid & Hit).
  rewrite Forall_forall in Hold.
  destruct (Hold it Hit) as (t & Hlt & Ht).
  rewrite Ht in Hid. apply toString_inj in Hid. subst t.
  by apply N.lt_irrefl in Hlt.
Qed.

Lemma addIssue_prepends_open_issue_witness :
  ∃ newIssue,
    State.issues
      (addIssue later (js "Leak") (js "Water leak on 3rd") (js "Water")
         pothole)
    = newIssue :: State.issues pothole
    ∧ Issue.title newIssue = js "Leak"
    ∧ Issue.description newIssue = js "Water leak on 3rd"
    ∧ Issue.category newIssue = js "Water"
    ∧ Issue.status newIssue = js "Open"
    ∧ Issue.comments newIssue = []
    ∧ Issue.createdAt newIssue = Clock.toLocaleString later
    ∧ Issue.reporterRole newIssue = State.role pothole
    ∧ Issue.id newIssue = toString (Clock.now later)
    ∧ Issue.id newIssue ∉ Issue.id <$> State.issues pothole.
Proof.
  apply (addIssue_prepends_open_issue later (js "Leak")
           (js "Water leak on 3rd") (js "Water") pothole).
  repeat constructor. exists 1730000000000%N. split; reflexivity.
Defined.

(** ** C8: an id that no issue has *)

(** C8: when no issue of the collection has the given id, [addComment],
    [changeStatus] and [deleteIssue] (whatever the role) each leave the
    collection equal to what it was. *)
Theorem absent_id_is_noop
    (clk : Clock.t) (issueId text status : js_string) (st : State.t) :
  issueId ∉ Issue.id <$> State.issues st →
  State.issues (addComment clk issueId text st) = State.issues st
  ∧ State.issues (changeStatus issueId status st) = State.issues st
  ∧ State.issues (deleteIssue issueId st) = State.issues st.
Proof.
  intros Hno. pose proof (absent_id_Forall _ _ Hno) as Hall.
  repeat split.
  - rewrite addComment_issues. apply fmap_unchanged.
    eapply Forall_impl; [exact Hall|]. intros it Hit. simpl.
    by rewrite decide_False.
  - rewrite changeStatus_issues. apply fmap_unchanged.
    eapply Forall_impl; [exact Hall|]. intros it Hit. simpl.
    by rewrite decide_False.
  - destruct (decide (State.role st = js "Admin")) as [Hr|Hr].
    + rewrite deleteIssue_admin by done. simpl.
      by apply filter_unchanged.
    + by rewrite deleteIssue_denied.
Qed.

Lemma absent_id_is_noop_witness :
  State.issues (addComment later (js "42") (js "hello") pothole)
  = State.issues pothole
  ∧ State.issues (changeStatus (js "42") (js "Resolved") pothole)
    = State.issues pothole
  ∧ State.issues (deleteIssue (js "42") (State.setRole (js "Admin") pothole))
    = State.issues (State.setRole (js "Admin") pothole).
Proof.
  split; [|split].
  - apply (absent_id_is_noop later (js "42") (js "hello") (js "Resolved")
             pothole).
    by_compute.
  - apply (absent_id_is_noop later (js "42") (js "hello") (js "Resolved")
             pothole).
    by_compute.
  - apply (absent_id_is_noop later (js "42") (js "hello") (js "Resolved")
             (State.setRole (js "Admin") pothole)).
    by_compute.
Defined.

(** ** C9: the feed of recent updates and open reports *)

(** C9: for every collection and every limit, [recentFeed] returns at most
    [limit] entries, each of status "Open" or "Update", in the order they
    have in the collection; the list [App] renders is the one for the
    limit 6. *)
Theorem recentFeed_bounded_filtered_in_order
    (C : list Issue.t) (limit : nat) (st : State.t) :
  length (recentFeed C limit) ≤ limit
  ∧ Forall (λ i, Issue.status i = js "Open" ∨ Issue.status i = js "Update")
      (recentFeed C limit)
  ∧ recentFeed C limit `sublist_of` C
  ∧ updatesList st = recentFeed (State.issues st) 6
  ∧ length (updatesList st) ≤ 6.
Proof.
  unfold updatesList, recentFeed. repeat split.
  - rewrite length_take. lia.
  - apply Forall_take, Forall_forall. intros i Hi.
    apply list_elem_of_filter in Hi as [Hi _]. tauto.
  - etrans; [apply sublist_take | apply sublist_filter].
  - rewrite length_take. lia.
Qed.

(** ** C10: what a comment or a status change leaves alone *)

Lemma fmap_pointwise {A : Type} (f : A → A) (l : list A) (i : nat) (x : A) :
  l !! i = Some x → (f <$> l) !! i = Some (f x).
Proof. intros H. by rewrite list_lookup_fmap, H. Qed.

(** C10: [addComment] and [changeStatus] keep the number of issues and
    the sequence of their ids; an issue whose id differs from the given
    one is left as it is, at its position; an issue with the given id
    keeps every field but one: [addComment] appends one comment to its
    comments, [changeStatus] replaces its status. *)
Theorem addComment_changeStatus_frame
    (clk : Clock.t) (issueId text status : js_string) (st : State.t) :
  let C := State.issues st in
  let A := State.issues (addComment clk issueId text st) in
  let B := State.issues (changeStatus issueId status st) in
  length A = length C
  ∧ length B = length C
  ∧ Issue.id <$> A = Issue.id <$> C
  ∧ Issue.id <$> B = Issue.id <$> C
  ∧ ∀ (i : nat) (it : Issue.t), C !! i = Some it →
      (Issue.id it ≠ issueId → A !! i = Some it ∧ B !! i = Some it)
      ∧ (Issue.id it = issueId →
         ∃ a b c,
           A !! i = Some a ∧ B !! i = Some b
           ∧ a = Issue.mk (Issue.id it) (Issue.title it)
                   (Issue.description it) (Issue.category it)
                   (Issue.status it) (Issue.comments it ++ [c])
                   (Issue.createdAt it) (Issue.reporterRole it)
           ∧ Comment.text c = text ∧ Comment.role c = State.role st
           ∧ b = Issue.mk (Issue.id it) (Issue.title it)
                   (Issue.description it) (Issue.category it)
                   status (Issue.comments it)
                   (Issue.createdAt it) (Issue.reporterRole it)).
Proof.
  intros C A B. subst C A B.
  rewrite addComment_issues, changeStatus_issues.
  repeat split.
  - by rewrite length_fmap.
  - by rewrite length_fmap.
  - rewrite <- list_fmap_compose. apply list_fmap_ext.
    intros i it _. simpl. by case_decide.
  - rewrite <- list_fmap_compose. apply list_fmap_ext.
    intros i it _. simpl. by case_decide.
  - erewrite fmap_pointwise by eassumption. by rewrite decide_False.
  - erewrite fmap_pointwise by eassumption. by rewrite decide_False.
  - intros Hid. do 3 eexists.
    split; [|split; [|split; [reflexivity|split; [|split]]]].
    + erewrite fmap_pointwise by eassumption. by rewrite decide_True.
    + erewrite fmap_pointwise by eassumption. by rewrite decide_True.
    + reflexivity.
    + reflexivity.
    + reflexivity.
Qed.

(** * Further properties of the code *)

(** ** Broadcasts *)

(** X1: [postUpdate] puts one new issue in front of the collection and
    changes nothing else of the state.  The new issue has status "Update",
    reporter "Politician" whatever the current role, the given text as
    description, no comments, and the title "Broadcast - " followed by its
    category, which is the given one, or "General" when the given one is
    empty. *)
Theorem postUpdate_prepends_broadcast
    (clk : Clock.t) (text category : js_string) (st : State.t) :
  ∃ update,
    postUpdate clk text category st
    = State.setIssues (λ prev, update :: prev) st
    ∧ Issue.id update = toString (Clock.now clk)
    ∧ Issue.status update = js "Update"
    ∧ Issue.reporterRole update = js "Politician"
    ∧ Issue.description update = text
    ∧ Issue.comments update = []
    ∧ Issue.createdAt update = Clock.toLocaleString clk
    ∧ Issue.title update = js "Broadcast - " ++ Issue.category update
    ∧ Issue.category update
      = match category with [] => js "General" | _ :: _ => category end.
Proof.
  eexists. split; [reflexivity|]. cbn [Issue.id Issue.status
    Issue.reporterRole Issue.description Issue.comments Issue.createdAt
    Issue.title Issue.category].
  repeat split. by destruct category.
Qed.

(** ** Status changes compose *)

Lemma setIssues_ext (f g : list Issue.t → list Issue.t) (st : State.t) :
  f (State.issues st) = g (State.issues st) →
  State.setIssues f st = State.setIssues g st.
Proof. unfold State.setIssues. by intros ->. Qed.

(** X2: of two status changes of the same id the later one wins (so a
    repeated change is the same as a single one), and status changes of
    different ids can be made in either order. *)
Theorem changeStatus_last_write_wins
    (issueId other s1 s2 : js_string) (st : State.t) :
  changeStatus issueId s2 (changeStatus issueId s1 st)
  = changeStatus issueId s2 st
  ∧ changeStatus issueId s1 (changeStatus issueId s1 st)
    = changeStatus issueId s1 st
  ∧ (issueId ≠ other →
     changeStatus issueId s1 (changeStatus other s2 st)
     = changeStatus other s2 (changeStatus issueId s1 st)).
Proof.
  assert (Hsame : ∀ a b,
            changeStatus issueId b (changeStatus issueId a st)
            = changeStatus issueId b st).
  { intros a b. unfold changeStatus, State.setIssues. cbn. f_equal.
    rewrite <- list_fmap_compose. apply list_fmap_ext. intros i it _.
    cbn. destruct (decide (Issue.id it = issueId)) as [Hid|Hid]; cbn.
    - by rewrite decide_True.
    - by rewrite decide_False. }
  split; [apply Hsame|]. split; [apply Hsame|].
  intros Hne. unfold changeStatus, State.setIssues. cbn. f_equal.
  rewrite <- !list_fmap_compose. apply list_fmap_ext. intros i it _. cbn.
  destruct (decide (Issue.id it = issueId)) as [Hid|Hid];
    destruct (decide (Issue.id it = other)) as [Ho|Ho]; cbn;
    repeat case_decide; cbn in *; congruence.
Qed.

(** ** Deletion *)

(** X3: after an Admin's [deleteIssue] no issue with the given id is left,
    even when several had it; deleting again changes nothing; the
    collection does not grow; and deleting the report that [addIssue] has
    just filed gives the collection back, when the id was not in it. *)
Theorem deleteIssue_removes_every_match
    (issueId : js_string) (st : State.t) :
  State.role st = js "Admin" →
  (issueId ∉ Issue.id <$> State.issues (deleteIssue issueId st))
  ∧ deleteIssue issueId (deleteIssue issueId st) = deleteIssue issueId st
  ∧ length (State.issues (deleteIssue issueId st))
    ≤ length (State.issues st)
  ∧ ∀ clk title description category,
      toString (Clock.now clk) ∉ Issue.id <$> State.issues st →
      State.issues
        (deleteIssue (toString (Clock.now clk))
           (addIssue clk title description category st))
      = State.issues st.
Proof.
  intros Hr. rewrite !deleteIssue_admin by done.
  split; [|split; [|split]].
  - cbn. intros Hin. apply list_elem_of_fmap in Hin as (it & Hid & Hit).
    apply list_elem_of_filter in Hit as [Hne _]. by destruct Hne.
  - unfold State.setSelected, State.setIssues. cbn. f_equal.
    apply filter_unchanged, Forall_forall. intros it Hit.
    by apply list_elem_of_filter in Hit as [Hne _].
  - cbn. apply length_filter.
  - intros clk title description category Hfresh.
    rewrite deleteIssue_admin by done.
    unfold addIssue, State.setSelected, State.setIssues.
    cbn [State.issues].
    rewrite filter_cons_False by (cbn; auto).
    by apply filter_unchanged, absent_id_Forall.
Qed.

Lemma deleteIssue_removes_every_match_witness :
  js "1730000060000"
  ∉ Issue.id <$> State.issues (deleteIssue (js "1730000060000") twoReports).
Proof.
  apply (deleteIssue_removes_every_match (js "1730000060000") twoReports).
  reflexivity.
Defined.

(** ** What no callback rewrites *)

(** Where the issues of the new collection come from. *)
Lemma perform_stems
    (clk : Clock.t) (a : action) (st : State.t) (it' : Issue.t) :
  it' ∈ State.issues (perform clk a st) →
  (∃ it, it ∈ State.issues st
         ∧ Issue.id it' = Issue.id it
         ∧ Issue.title it' = Issue.title it
         ∧ Issue.description it' = Issue.description it
         ∧ Issue.category it' = Issue.category it
         ∧ Issue.createdAt it' = Issue.createdAt it
         ∧ Issue.reporterRole it' = Issue.reporterRole it
         ∧ Issue.comments it `prefix_of` Issue.comments it')
  ∨ (head (State.issues (perform clk a st)) = Some it'
     ∧ Issue.comments it' = []
     ∧ Issue.id it' = toString (Clock.now clk)
     ∧ Issue.createdAt it' = Clock.toLocaleString clk
     ∧ ∃ x y z, a = AddIssue x y z ∨ a = PostUpdate x y).
Proof.
  assert (Hsame : ∀ it, it ∈ State.issues st →
            ∃ it0, it0 ∈ State.issues st
              ∧ Issue.id it = Issue.id it0
              ∧ Issue.title it = Issue.title it0
              ∧ Issue.description it = Issue.description it0
              ∧ Issue.category it = Issue.category it0
              ∧ Issue.createdAt it = Issue.createdAt it0
              ∧ Issue.reporterRole it = Issue.reporterRole it0
              ∧ Issue.comments it0 `prefix_of` Issue.comments it).
  { intros it Hit. exists it. by repeat split. }
  destruct a as [title description category|issueId text|text category
                 |issueId status|issueId]; cbn [perform]; intros Hin.
  - cbn in Hin. apply elem_of_cons in Hin as [->|Hin]; [right|left; auto].
    repeat split. exists title, description, category. by left.
  - left. rewrite addComment_issues in Hin.
    apply list_elem_of_fmap in Hin as (it & -> & Hit).
    exists it. case_decide; cbn; repeat split; try done.
    by apply prefix_app_r.
  - cbn in Hin. apply elem_of_cons in Hin as [->|Hin]; [right|left; auto].
    repeat split. exists text, category, []. by right.
  - left. rewrite changeStatus_issues in Hin.
    apply list_elem_of_fmap in Hin as (it & -> & Hit).
    exists it. by case_decide; cbn; repeat split.
  - left. apply Hsame.
    destruct (decide (State.role st = js "Admin")) as [Hr|Hr].
    + rewrite deleteIssue_admin in Hin by done. cbn in Hin.
      by apply list_elem_of_filter in Hin as [_ Hin].
    + by rewrite deleteIssue_denied in Hin.
Qed.

(** X4: whatever the action, every issue of the new collection is either
    the one the action has just created (the first of the collection, with
    no comments and the clock reading as id) or stems from an issue of the
    old collection with the same id, title, description, category,
    [createdAt] and [reporterRole], whose comments it keeps, in order, at
    the front of its own: no callback rewrites a creation field, and
    comments are only ever added at the end. *)
Theorem perform_keeps_creation_fields
    (clk : Clock.t) (a : action) (st : State.t) (it' : Issue.t) :
  it' ∈ State.issues (perform clk a st) →
  (∃ it, it ∈ State.issues st
         ∧ Issue.id it' = Issue.id it
         ∧ Issue.title it' = Issue.title it
         ∧ Issue.description it' = Issue.description it
         ∧ Issue.category it' = Issue.category it
         ∧ Issue.createdAt it' = Issue.createdAt it
         ∧ Issue.reporterRole it' = Issue.reporterRole it
         ∧ Issue.comments it `prefix_of` Issue.comments it')
  ∨ (head (State.issues (perform clk a st)) = Some it'
     ∧ Issue.comments it' = []
     ∧ Issue.id it' = toString (Clock.now clk)
     ∧ Issue.createdAt it' = Clock.toLocaleString clk
     ∧ ∃ x y z, a = AddIssue x y z ∨ a = PostUpdate x y).
Proof. apply perform_stems. Qed.

Lemma perform_keeps_creation_fields_witness :
  (∃ it, it ∈ State.issues pothole
         ∧ Issue.id (Issue.with_status potholeIssue (js "Resolved"))
           = Issue.id it
         ∧ Issue.title (Issue.with_status potholeIssue (js "Resolved"))
           = Issue.title it
         ∧ Issue.description (Issue.with_status potholeIssue (js "Resolved"))
           = Issue.description it
         ∧ Issue.category (Issue.with_status potholeIssue (js "Resolved"))
           = Issue.category it
         ∧ Issue.createdAt (Issue.with_status potholeIssue (js "Resolved"))
           = Issue.createdAt it
         ∧ Issue.reporterRole
             (Issue.with_status potholeIssue (js "Resolved"))
           = Issue.reporterRole it
         ∧ Issue.comments it
           `prefix_of`
           Issue.comments (Issue.with_status potholeIssue (js "Resolved")))
  ∨ (head (State.issues
             (perform later
                (ChangeStatus (Issue.id potholeIssue) (js "Resolved"))
                pothole))
     = Some (Issue.with_status potholeIssue (js "Resolved"))
     ∧ Issue.comments (Issue.with_status potholeIssue (js "Resolved")) = []
     ∧ Issue.id (Issue.with_status potholeIssue (js "Resolved"))
       = toString (Clock.now later)
     ∧ Issue.createdAt (Issue.with_status potholeIssue (js "Resolved"))
       = Clock.toLocaleString later
     ∧ ∃ x y z,
         ChangeStatus (Issue.id potholeIssue) (js "Resolved")
         = AddIssue x y z
         ∨ ChangeStatus (Issue.id potholeIssue) (js "Resolved")
           = PostUpdate x y).
Proof.
  apply (perform_keeps_creation_fields later
           (ChangeStatus (Issue.id potholeIssue) (js "Resolved")) pothole
           (Issue.with_status potholeIssue (js "Resolved"))).
  by_compute.
Defined.

(** ** The list of all reports *)

(** X5: with the filter "all" the list of reports is the whole
    collection; with any other filter it holds exactly the issues whose
    status equals the filter; either way it keeps the collection's
    order. *)
Theorem visible_filters_by_status (st : State.t) :
  (State.filter st = js "all" → visible st = State.issues st)
  ∧ (State.filter st ≠ js "all" →
     ∀ it, it ∈ visible st
           ↔ it ∈ State.issues st ∧ Issue.status it = State.filter st)
  ∧ visible st `sublist_of` State.issues st.
Proof.
  unfold visible. split; [|split].
  - intros Hall. apply filter_unchanged, Forall_forall. auto.
  - intros Hne it. rewrite list_elem_of_filter. tauto.
  - apply sublist_filter.
Qed.

(** ** The feed follows the collection *)

(** X6: a report that has just been filed, or a broadcast that has just
    been posted, is the first entry of the feed; once the status of an id
    is changed to anything but "Open" and "Update", and once an Admin has
    deleted an id, no entry of the feed has that id. *)
Theorem updatesList_follows_mutations
    (clk : Clock.t) (x y z issueId status : js_string) (st : State.t) :
  head (updatesList (addIssue clk x y z st))
  = head (State.issues (addIssue clk x y z st))
  ∧ head (updatesList (postUpdate clk x y st))
    = head (State.issues (postUpdate clk x y st))
  ∧ (status ≠ js "Open" → status ≠ js "Update" →
     issueId ∉ Issue.id <$> updatesList (changeStatus issueId status st))
  ∧ (State.role st = js "Admin" →
     issueId ∉ Issue.id <$> updatesList (deleteIssue issueId st)).
Proof.
  unfold updatesList, recentFeed. split; [|split; [|split]].
  - cbn [addIssue State.setIssues State.issues].
    by rewrite filter_cons_True by (cbn; auto).
  - cbn [postUpdate State.setIssues State.issues].
    by rewrite filter_cons_True by (cbn; auto).
  - intros Ho Hu Hin. apply list_elem_of_fmap in Hin as (it & Hid & Hit).
    apply elem_of_take in Hit as (i & Hit & _).
    apply list_elem_of_lookup_2 in Hit.
    apply list_elem_of_filter in Hit as [Hst Hit].
    rewrite changeStatus_issues in Hit.
    apply list_elem_of_fmap in Hit as (it0 & Hit0 & _). subst it.
    destruct (decide (Issue.id it0 = issueId)) as [Hd|Hd];
      cbn [Issue.status Issue.id Issue.with_status] in Hst, Hid;
      [|congruence].
    destruct Hst as [Hst|Hst]; congruence.
  - intros Hr Hin. apply list_elem_of_fmap in Hin as (it & Hid & Hit).
    apply elem_of_take in Hit as (i & Hit & _).
    apply list_elem_of_lookup_2 in Hit.
    apply list_elem_of_filter in Hit as [_ Hit].
    rewrite deleteIssue_admin in Hit by done. cbn in Hit.
    apply list_elem_of_filter in Hit as [Hne _]. by destruct Hne.
Qed.

(** ** What an entry of the feed shows *)

(** X7: the description shown in the feed is the description itself when
    it has at most 100 code units, and otherwise its first 100 code units
    followed by three dots; it is never longer than 103. *)
Theorem descriptionPreview_truncates (u : Issue.t) :
  length (descriptionPreview u) ≤ 103
  ∧ (length (Issue.description u) ≤ 100 →
     descriptionPreview u = Issue.description u)
  ∧ (100 < length (Issue.description u) →
     descriptionPreview u = take 100 (Issue.description u) ++ js "..."
     ∧ length (descriptionPreview u) = 103)
  ∧ take 100 (Issue.description u) `prefix_of` descriptionPreview u.
Proof.
  unfold descriptionPreview. split; [|split; [|split]].
  - rewrite length_app, length_take.
    case_decide; [change (length (js "...")) with 3|cbn [length]]; lia.
  - intros Hle. rewrite decide_False by lia.
    by rewrite app_nil_r, take_ge.
  - intros Hlt. rewrite decide_True by done. split; [done|].
    rewrite length_app, length_take. change (length (js "...")) with 3.
    lia.
  - by apply prefix_app_r.
Qed.

(** X8: the status line of every entry of the feed reads "Broadcast" or
    "Open", and it reads "Broadcast" exactly for the entries of status
    "Update". *)
Theorem updatesList_status_labels (st : State.t) (u : Issue.t) :
  u ∈ updatesList st →
  (statusLabel u = js "Broadcast" ∨ statusLabel u = js "Open")
  ∧ (statusLabel u = js "Broadcast" ↔ Issue.status u = js "Update").
Proof.
  intros Hin. unfold updatesList, recentFeed in Hin.
  apply elem_of_take in Hin as (i & Hin & _).
  apply list_elem_of_lookup_2 in Hin.
  apply list_elem_of_filter in Hin as [Hst _].
  unfold statusLabel. case_decide as Hu.
  - split; [by left|done].
  - destruct Hst as [Hst|Hst]; [done|]. rewrite Hst. split; [by right|].
    split; [discriminate|]. intros; congruence.
Qed.

Lemma updatesList_status_labels_witness :
  (statusLabel waterBroadcast = js "Broadcast"
   ∨ statusLabel waterBroadcast = js "Open")
  ∧ (statusLabel waterBroadcast = js "Broadcast"
     ↔ Issue.status waterBroadcast = js "Update").
Proof.
  apply (updatesList_status_labels announced waterBroadcast). by_compute.
Defined.

(** ** Trimming *)

Lemma trimStart_head (s : js_string) :
  match trimStart s with
  | [] => True
  | c :: _ => isWhiteSpace c = false
  end.
Proof.
  induction s as [|c s IH]; [done|]. cbn [trimStart].
  by destruct (isWhiteSpace c) eqn:E.
Qed.

Lemma trimStart_fixed (c : N) (s : js_string) :
  isWhiteSpace c = false → trimStart (c :: s) = c :: s.
Proof. intros H. cbn [trimStart]. by rewrite H. Qed.

Lemma trimStart_snoc (l : js_string) (c : N) :
  trimStart (l ++ [c])
  = match trimStart l with
    | [] => if isWhiteSpace c then [] else [c]
    | _ :: _ => trimStart l ++ [c]
    end.
Proof.
  induction l as [|a l IH]; [done|]. cbn [app trimStart].
  destruct (isWhiteSpace a); [exact IH|done].
Qed.

(** [trimEnd], read from the front. *)
Lemma trimEnd_cons (c : N) (s : js_string) :
  trimEnd (c :: s)
  = match trimEnd s with
    | [] => if isWhiteSpace c then [] else [c]
    | _ :: _ => c :: trimEnd s
    end.
Proof.
  unfold trimEnd. rewrite reverse_cons, trimStart_snoc.
  destruct (trimStart (reverse s)) as [|a l] eqn:E.
  - cbn. by destruct (isWhiteSpace c).
  - rewrite reverse_app, reverse_singleton. cbn [app].
    destruct (reverse (a :: l)) eqn:E'; [|done].
    apply (f_equal reverse) in E'. rewrite reverse_involutive in E'.
    discriminate.
Qed.

Lemma trimEnd_fixed_head (c : N) (s : js_string) :
  isWhiteSpace c = false → ∃ t, trimEnd (c :: s) = c :: t.
Proof.
  intros H. rewrite trimEnd_cons, H. destruct (trimEnd s); eauto.
Qed.

Lemma trimEnd_idem (s : js_string) : trimEnd (trimEnd s) = trimEnd s.
Proof.
  unfold trimEnd. rewrite reverse_involutive. f_equal.
  pose proof (trimStart_head (reverse s)) as H.
  destruct (trimStart (reverse s)) as [|c t]; [done|].
  by apply trimStart_fixed.
Qed.

Lemma trimEnd_last (s : js_string) :
  match last (trimEnd s) with
  | None => True
  | Some c => isWhiteSpace c = false
  end.
Proof.
  unfold trimEnd. rewrite last_reverse.
  pose proof (trimStart_head (reverse s)) as H.
  by destruct (trimStart (reverse s)).
Qed.

(** A trimmed string is left alone by [trim], and neither starts nor ends
    with white space. *)
Lemma trim_trimmed (s : js_string) :
  trim (trim s) = trim s
  ∧ match head (trim s) with
    | None => True
    | Some c => isWhiteSpace c = false
    end
  ∧ match last (trim s) with
    | None => True
    | Some c => isWhiteSpace c = false
    end.
Proof.
  unfold trim. pose proof (trimStart_head s) as H.
  destruct (trimStart s) as [|c t] eqn:E.
  - by cbn.
  - destruct (trimEnd_fixed_head c t H) as [t' Ht].
    split; [|split].
    + rewrite Ht, (trimStart_fixed c t' H), <- Ht. apply trimEnd_idem.
    + by rewrite Ht.
    + apply trimEnd_last.
Qed.

Lemma startsWith_refl (s : js_string) : startsWith s s = true.
Proof.
  induction s as [|c s IH]; [done|]. cbn. by rewrite N.eqb_refl.
Qed.

Lemma startsWith_nil (s : js_string) : startsWith s [] = true.
Proof. by destruct s. Qed.

Lemma includes_suffix (m r : js_string) : includes (m ++ r) r = true.
Proof.
  induction m as [|a m IH].
  - cbn [app]. destruct r; cbn; [done|].
    by rewrite N.eqb_refl, startsWith_refl.
  - cbn [app includes]. by rewrite IH, orb_true_r.
Qed.

(** ** The page as the user drives it *)

(** Which buttons of the detail view take a click. *)
Lemma clickable_spec (r : js_string) (issue : Issue.t)
    (b : IssueDetail.button) :
  IssueDetail.clickable r issue b
  = match b with
    | IssueDetail.AddComment => true
    | IssueDetail.MarkInProgress =>
        IssueDetail.isAuthorizedToAct r
        && negb (IssueDetail.isBroadcast issue)
        && negb (bool_decide (Issue.status issue = js "In Progress"))
    | IssueDetail.MarkResolved =>
        IssueDetail.isAuthorizedToAct r
        && negb (IssueDetail.isBroadcast issue)
        && negb (bool_decide (Issue.status issue = js "Resolved"))
    | IssueDetail.Delete => IssueDetail.isAdmin r
    end.
Proof.
  unfold IssueDetail.clickable, IssueDetail.buttons.
  destruct b, (IssueDetail.isAuthorizedToAct r),
    (IssueDetail.isBroadcast issue),
    (bool_decide (Issue.status issue = js "In Progress")),
    (bool_decide (Issue.status issue = js "Resolved")),
    (IssueDetail.isAdmin r); reflexivity.
Qed.

Lemma isAuthorizedToAct_spec (r : js_string) :
  IssueDetail.isAuthorizedToAct r = true
  ↔ r ∈ [js "Moderator"; js "Politician"; js "Admin"].
Proof.
  unfold IssueDetail.isAuthorizedToAct.
  rewrite !orb_true_iff, !bool_decide_eq_true, !elem_of_cons, elem_of_nil.
  tauto.
Qed.

(** An event either leaves the collection alone, changing at most what is
    shown, or comes down to one core action that the page permits. *)
Lemma handle_cases (clk : Clock.t) (ev : ui_event) (st : State.t) :
  (snd (handle clk ev st) = false ∧ viewChange st (fst (handle clk ev st)))
  ∨ (∃ a, permitted st a ∧ handle clk ev st = (perform clk a st, true)).
Proof.
  destruct ev as [r|f|i|title description category|b text|msg category|];
    cbn [handle].
  - left. case_decide; cbn; split; auto using viewChange.
  - left. case_decide; cbn; split; auto using viewChange.
  - left. destruct (visible st !! i) as [it|] eqn:E; cbn;
      split; auto using viewChange.
    apply view_select. by eapply list_elem_of_lookup_2.
  - case_decide as H; [|left; cbn; split; auto using viewChange].
    destruct H as [Hr Hc]. unfold IssueForm.submit.
    cbn [IssueForm.title IssueForm.description IssueForm.category].
    destruct (trim title) as [|a t] eqn:Et;
      [left; cbn; split; auto using viewChange|].
    destruct (trim description) as [|a' d] eqn:Ed;
      [left; cbn; split; auto using viewChange|].
    right. cbn. exists (AddIssue (a :: t) (a' :: d) category).
    split; [|done].
    constructor; try done.
    + rewrite <- Et. apply trim_trimmed.
    + rewrite <- Ed. apply trim_trimmed.
  - destruct (State.selected st) as [sel|] eqn:Hsel;
      [|left; cbn; split; auto using viewChange].
    unfold IssueDetail.click. rewrite clickable_spec.
    destruct b.
    + unfold IssueDetail.submitComment.
      destruct (trim text) as [|a t] eqn:Et;
        [left; cbn; split; auto using viewChange|].
      right. cbn. exists (AddComment (Issue.id sel) (a :: t)).
      split; [|done]. constructor; try done.
      rewrite <- Et. apply trim_trimmed.
    + destruct (IssueDetail.isAuthorizedToAct (State.role st)) eqn:Ha;
        [|left; cbn; split; auto using viewChange].
      destruct (IssueDetail.isBroadcast sel) eqn:Hb;
        [left; cbn; split; auto using viewChange|].
      destruct (bool_decide (Issue.status sel = js "In Progress")) eqn:Hs;
        [left; cbn; split; auto using viewChange|].
      right. cbn. unfold IssueDetail.handleStatusChange. rewrite Ha. cbn.
      exists (ChangeStatus (Issue.id sel) (js "In Progress")).
      split; [|done]. constructor; try done.
      * by apply isAuthorizedToAct_spec.
      * by apply bool_decide_eq_false_1 in Hb.
      * apply elem_of_cons. by left.
      * apply bool_decide_eq_false_1 in Hs. congruence.
    + destruct (IssueDetail.isAuthorizedToAct (State.role st)) eqn:Ha;
        [|left; cbn; split; auto using viewChange].
      destruct (IssueDetail.isBroadcast sel) eqn:Hb;
        [left; cbn; split; auto using viewChange|].
      destruct (bool_decide (Issue.status sel = js "Resolved")) eqn:Hs;
        [left; cbn; split; auto using viewChange|].
      right. cbn. unfold IssueDetail.handleStatusChange. rewrite Ha. cbn.
      exists (ChangeStatus (Issue.id sel) (js "Resolved")).
      split; [|done]. constructor; try done.
      * by apply isAuthorizedToAct_spec.
      * by apply bool_decide_eq_false_1 in Hb.
      * apply elem_of_cons. right. apply elem_of_cons. by left.
      * apply bool_decide_eq_false_1 in Hs. congruence.
    + destruct (IssueDetail.isAdmin (State.role st)) eqn:Ha;
        [|left; cbn; split; auto using viewChange].
      right. cbn. unfold IssueDetail.handleDelete. rewrite Ha. cbn.
      unfold deleteTracked. cbn [fst snd].
      unfold IssueDetail.isAdmin in Ha. rewrite Ha. cbn.
      exists (DeleteIssue (Issue.id sel)). split; [|done].
      constructor; [done|]. by apply bool_decide_eq_true_1 in Ha.
  - case_decide as H; [|left; cbn; split; auto using viewChange].
    destruct H as [Hr Hc]. unfold Broadcast.send. rewrite Hr.
    cbn [negb Broadcast.msg Broadcast.category].
    destruct (trim msg) as [|a t] eqn:Et;
      [left; cbn; split; auto using viewChange|].
    right. cbn. exists (PostUpdate (a :: t) category). split; [|done].
    constructor; try done.
    + by apply bool_decide_eq_true_1 in Hr.
    + rewrite <- Et. apply trim_trimmed.
  - left. cbn. split; auto using viewChange.
Qed.












Lemma issuesEffect_rest (st : State.t) (ls : localStorage) :
  State.role (fst (issuesEffect st ls)) = State.role st
  ∧ State.filter (fst (issuesEffect st ls)) = State.filter st
  ∧ State.modalMessage (fst (issuesEffect st ls)) = State.modalMessage st
  ∧ snd (issuesEffect st ls) = save (State.issues st) ls.
Proof.
  unfold issuesEffect. destruct (State.selected st); [|done].
  by destruct (find _ _).
Qed.










(** ** Filing a report through the form *)

(** X9: for a Citizen, submitting a form whose title and description are
    not blank files one report in front of the collection and resets the
    form.  The report holds the trimmed title and description, which are
    not empty and neither start nor end with white space, the chosen
    category, status "Open" and reporter "Citizen". *)
Theorem App_submitIssue_files_trimmed_report
    (clk : Clock.t) (f : IssueForm.t) (st : State.t) :
  State.role st = js "Citizen" →
  trim (IssueForm.title f) ≠ [] →
  trim (IssueForm.description f) ≠ [] →
  ∃ it,
    App_submitIssue clk f st
    = (IssueForm.init, State.setIssues (λ prev, it :: prev) st)
    ∧ Issue.title it = trim (IssueForm.title f)
    ∧ Issue.description it = trim (IssueForm.description f)
    ∧ Issue.category it = IssueForm.category f
    ∧ Issue.status it = js "Open"
    ∧ Issue.reporterRole it = js "Citizen"
    ∧ Issue.comments it = []
    ∧ Issue.title it ≠ [] ∧ trim (Issue.title it) = Issue.title it
    ∧ Issue.description it ≠ []
    ∧ trim (Issue.description it) = Issue.description it.
Proof.
  intros Hr Ht Hd. unfold App_submitIssue, IssueForm.submit.
  rewrite decide_True by done.
  destruct (trim (IssueForm.title f)) as [|a t] eqn:Et; [done|].
  destruct (trim (IssueForm.description f)) as [|a' d] eqn:Ed; [done|].
  cbn [truthy negb orb]. eexists. split; [reflexivity|].
  cbn [Issue.title Issue.description Issue.category Issue.status
       Issue.reporterRole Issue.comments].
  repeat split; try done.
  - rewrite <- Et. apply trim_trimmed.
  - rewrite <- Ed. apply trim_trimmed.
Qed.

Lemma App_submitIssue_files_trimmed_report_witness :
  ∃ it,
    App_submitIssue noon
      (IssueForm.mk (js "  Pothole ") (js "Large pothole on 5th")
         (js "Roads")) State.init
    = (IssueForm.init, State.setIssues (λ prev, it :: prev) State.init)
    ∧ Issue.title it = trim (js "  Pothole ")
    ∧ Issue.description it = trim (js "Large pothole on 5th")
    ∧ Issue.category it = js "Roads"
    ∧ Issue.status it = js "Open"
    ∧ Issue.reporterRole it = js "Citizen"
    ∧ Issue.comments it = []
    ∧ Issue.title it ≠ [] ∧ trim (Issue.title it) = Issue.title it
    ∧ Issue.description it ≠ []
    ∧ trim (Issue.description it) = Issue.description it.
Proof.
  apply (App_submitIssue_files_trimmed_report noon
           (IssueForm.mk (js "  Pothole ") (js "Large pothole on 5th")
              (js "Roads")) State.init);
    [reflexivity | by_compute | by_compute].
Defined.

(** ** The selected issue keeps up *)

Lemma find_fmap_id (f : Issue.t → Issue.t) (x : js_string)
    (l : list Issue.t) :
  (∀ it, Issue.id (f it) = Issue.id it) →
  find (λ i, bool_decide (Issue.id i = x)) (f <$> l)
  = f <$> find (λ i, bool_decide (Issue.id i = x)) l.
Proof.
  intros Hf. induction l as [|it l IH]; [done|].
  rewrite fmap_cons. cbn [find]. rewrite Hf.
  by destruct (bool_decide (Issue.id it = x)).
Qed.

(** X10: when the selected issue is the collection's entry for its id,
    a comment on it or a change of its status shows in the selection
    right after: the effect replaces the selection by the issue with the
    comment appended, or with the new status. *)
Theorem selected_issue_shows_its_change
    (clk : Clock.t) (text status : js_string) (st : State.t)
    (ls : localStorage) (sel : Issue.t) :
  State.selected st = Some sel →
  find (λ i, bool_decide (Issue.id i = Issue.id sel)) (State.issues st)
  = Some sel →
  State.selected
    (fst (dispatch clk (AddComment (Issue.id sel) text) (st, ls)))
  = Some (Issue.with_comments sel
            (Issue.comments sel ++
             [Comment.mk (toString (Clock.now clk)) (State.role st) text
                (Clock.toLocaleString clk)]))
  ∧ State.selected
      (fst (dispatch clk (ChangeStatus (Issue.id sel) status) (st, ls)))
    = Some (Issue.with_status sel status).
Proof.
  intros Hsel Hfind. unfold dispatch. cbn [replacesIssues fst snd perform].
  rewrite !issuesEffect_selected. split.
  - change (State.selected (addComment clk (Issue.id sel) text st))
      with (State.selected st).
    rewrite Hsel. cbn [mbind option_bind]. rewrite addComment_issues.
    rewrite find_fmap_id by (intros it; by case_decide).
    rewrite Hfind. cbn. by rewrite decide_True.
  - change (State.selected (changeStatus (Issue.id sel) status st))
      with (State.selected st).
    rewrite Hsel. cbn [mbind option_bind]. rewrite changeStatus_issues.
    rewrite find_fmap_id by (intros it; by case_decide).
    rewrite Hfind. cbn. by rewrite decide_True.
Qed.

Lemma selected_issue_shows_its_change_witness :
  State.selected
    (fst (dispatch later
            (ChangeStatus (Issue.id potholeIssue) (js "Resolved"))
            (twoReports, ∅)))
  = Some (Issue.with_status potholeIssue (js "Resolved")).
Proof.
  apply (selected_issue_shows_its_change later (js "On it")
           (js "Resolved") twoReports ∅ potholeIssue);
    reflexivity.
Defined.

(** ** Denials *)

(** X11: a handler that denies leaves the collection and the selection as
    they are and shows a notice.  The notice of the status handler and
    the one of the broadcast handler end with the current role; the
    delete handler shows the fixed notice of [deleteIssue]. *)
Theorem denials_keep_collection
    (clk : Clock.t) (issue : Issue.t) (status : js_string)
    (b : Broadcast.t) (st : State.t) :
  (IssueDetail.isAuthorizedToAct (State.role st) = false →
   IssueDetail.handleStatusChange changeStatus showModal (State.role st)
     issue status st
   = showModal (IssueDetail.statusDenied (State.role st)) st)
  ∧ (Broadcast.isPolitician (State.role st) = false →
     App_sendBroadcast clk b st
     = (b, showModal (Broadcast.sendDenied (State.role st)) st))
  ∧ (IssueDetail.isAdmin (State.role st) = false →
     IssueDetail.handleDelete deleteIssue showModal (State.role st) issue st
     = showModal deleteDenied st)
  ∧ (∀ m, State.issues (showModal m st) = State.issues st
          ∧ State.selected (showModal m st) = State.selected st
          ∧ State.modalMessage (showModal m st) = Some m)
  ∧ includes (IssueDetail.statusDenied (State.role st)) (State.role st)
    = true
  ∧ includes (Broadcast.sendDenied (State.role st)) (State.role st) = true.
Proof.
  split; [|split; [|split; [|split; [|split]]]].
  - intros H. unfold IssueDetail.handleStatusChange. by rewrite H.
  - intros H. unfold App_sendBroadcast, Broadcast.send. by rewrite H.
  - intros H. unfold IssueDetail.handleDelete. by rewrite H.
  - done.
  - apply includes_suffix.
  - apply includes_suffix.
Qed.

(** ** What is stored *)

(** X12: an action that replaces the collection stores it: loading right
    after gives the new collection; an action that does not (a denied
    deletion) leaves the storage as it is; and no action touches another
    key. *)
Theorem dispatch_stores_collection
    (clk : Clock.t) (a : action) (st : State.t) (ls : localStorage) :
  (replacesIssues a st = true →
   load (snd (dispatch clk a (st, ls)))
   = Return (issuesToJS (State.issues (fst (dispatch clk a (st, ls))))))
  ∧ (replacesIssues a st = false →
     snd (dispatch clk a (st, ls)) = ls
     ∧ State.issues (fst (dispatch clk a (st, ls))) = State.issues st)
  ∧ (∀ k, k ≠ KEY →
     getItem k (snd (dispatch clk a (st, ls))) = getItem k ls).
Proof.
  unfold dispatch. cbn [fst snd]. split; [|split].
  - intros ->.
    destruct (issuesEffect_rest (perform clk a st) ls) as (_ & _ & _ & ->).
    rewrite issuesEffect_issues. apply load_save.
  - intros H. rewrite H. cbn [fst snd]. split; [done|].
    destruct a; try discriminate. cbn in H.
    apply bool_decide_eq_false_1 in H. cbn [perform].
    by rewrite deleteIssue_denied.
  - intros k Hk. destruct (replacesIssues a st); [|done].
    destruct (issuesEffect_rest (perform clk a st) ls) as (_ & _ & _ & ->).
    unfold save, setItem, getItem. by rewrite lookup_insert_ne.
Qed.

(** ** The detail view *)

(** X13: no click in the detail view is denied: whatever the button, the
    typed text and the role, the notice stays as it was.  A role that is
    neither Moderator, Politician nor Admin changes neither a status nor
    the ids of the collection from this view, and no role but Admin
    changes the ids. *)
Theorem detail_view_never_denies
    (clk : Clock.t) (b : IssueDetail.button) (text : js_string)
    (st : State.t) :
  State.modalMessage (snd (App_clickDetail clk b text st))
  = State.modalMessage st
  ∧ (State.role st ∉ [js "Moderator"; js "Politician"; js "Admin"] →
     Issue.status <$> State.issues (snd (App_clickDetail clk b text st))
     = Issue.status <$> State.issues st)
  ∧ (State.role st ≠ js "Admin" →
     Issue.id <$> State.issues (snd (App_clickDetail clk b text st))
     = Issue.id <$> State.issues st).
Proof.
  assert (Hids : ∀ f : Issue.t → Issue.t,
            (∀ it, Issue.id (f it) = Issue.id it) →
            Issue.id <$> (f <$> State.issues st)
            = Issue.id <$> State.issues st).
  { intros f Hf. rewrite <- list_fmap_compose. apply list_fmap_ext.
    intros i it _. cbn. apply Hf. }
  unfold App_clickDetail.
  destruct (State.selected st) as [sel|]; [|by repeat split].
  unfold IssueDetail.click. rewrite clickable_spec.
  destruct b.
  - unfold IssueDetail.submitComment.
    destruct (negb (truthy (trim text))); [by repeat split|]. cbn [snd].
    rewrite addComment_issues. split; [done|]. split.
    + intros _. rewrite <- list_fmap_compose. apply list_fmap_ext.
      intros i it _. cbn. by case_decide.
    + intros _. apply Hids. intros it. by case_decide.
  - destruct (IssueDetail.isAuthorizedToAct (State.role st)) eqn:Ha;
      [|by repeat split].
    destruct (_ && _); [|by repeat split]. cbn [snd].
    unfold IssueDetail.handleStatusChange. rewrite Ha. cbn [negb].
    rewrite changeStatus_issues. split; [done|]. split.
    + intros Hn. by apply isAuthorizedToAct_spec in Ha.
    + intros _. apply Hids. intros it. by case_decide.
  - destruct (IssueDetail.isAuthorizedToAct (State.role st)) eqn:Ha;
      [|by repeat split].
    destruct (_ && _); [|by repeat split]. cbn [snd].
    unfold IssueDetail.handleStatusChange. rewrite Ha. cbn [negb].
    rewrite changeStatus_issues. split; [done|]. split.
    + intros Hn. by apply isAuthorizedToAct_spec in Ha.
    + intros _. apply Hids. intros it. by case_decide.
  - destruct (IssueDetail.isAdmin (State.role st)) eqn:Ha;
      [|by repeat split].
    cbn [snd]. unfold IssueDetail.handleDelete. rewrite Ha. cbn [negb].
    apply bool_decide_eq_true_1 in Ha.
    rewrite deleteIssue_admin by done. split; [done|]. split.
    + intros Hn. destruct Hn. rewrite Ha. by_compute.
    + done.
Qed.

(** ** Sessions *)

(** The handlers of [handle] are the ones [App] wires: what they do to
    the state is what [App_submitIssue], [App_clickDetail] and
    [App_sendBroadcast] do. *)
Lemma handle_agrees_with_App (clk : Clock.t) (st : State.t) :
  (∀ b text,
     fst (handle clk (ClickDetail b text) st)
     = snd (App_clickDetail clk b text st))
  ∧ (∀ title description category,
       category ∈ formCategories →
       fst (handle clk (SubmitIssue title description category) st)
       = snd (App_submitIssue clk
                (IssueForm.mk title description category) st))
  ∧ (∀ msg category,
       Broadcast.isPolitician (State.role st) = true →
       category ∈ broadcastCategories →
       fst (handle clk (ClickPost msg category) st)
       = snd (App_sendBroadcast clk (Broadcast.mk msg category) st)).
Proof.
  split; [|split].
  - intros b text. cbn [handle]. unfold App_clickDetail.
    destruct (State.selected st) as [sel|]; [|done].
    unfold IssueDetail.click.
    destruct (IssueDetail.clickable _ _ _); [|done].
    destruct b; cbn.
    + unfold IssueDetail.submitComment. by destruct (negb _).
    + unfold IssueDetail.handleStatusChange. by destruct (negb _).
    + unfold IssueDetail.handleStatusChange. by destruct (negb _).
    + unfold IssueDetail.handleDelete. by destruct (negb _).
  - intros title description category Hc. cbn [handle].
    unfold App_submitIssue, IssueForm.submit.
    destruct (decide (State.role st = js "Citizen")) as [Hr|Hr].
    + rewrite decide_True by done. by destruct (_ || _).
    + rewrite decide_False by tauto. done.
  - intros msg category Hp Hc. cbn [handle].
    rewrite decide_True by done.
    unfold App_sendBroadcast, Broadcast.send. rewrite Hp. cbn [negb].
    by destruct (negb _).
Qed.

Example mountedEmpty_stores_empty :
  fst (mountedEmpty ∅) = State.init
  ∧ getItem KEY (snd (mountedEmpty ∅)) = Some (js "[]").
Proof. split; reflexivity. Qed.












Lemma viewChange_issues (st st' : State.t) :
  viewChange st st' → State.issues st' = State.issues st.
Proof. by destruct 1. Qed.

Lemma permitted_replaces (st : State.t) (a : action) :
  permitted st a → replacesIssues a st = true.
Proof. destruct 1; cbn; try done. by apply bool_decide_eq_true_2. Qed.



(** X20: whatever the state and the event, the event either leaves the
    collection and the storage alone, or it is one core action that the
    page permits in that state, carried out as [dispatch] does.  So the
    collection shrinks only for an Admin, grows only for a Citizen or a
    Politician, and a status changes only for a Moderator, a Politician
    or an Admin. *)
Theorem ui_step_is_permitted_action
    (clk : Clock.t) (ev : ui_event) (w : State.t * localStorage) :
  ((∃ a, permitted (fst w) a ∧ ui_step clk ev w = dispatch clk a w)
   ∨ (viewChange (fst w) (fst (ui_step clk ev w))
      ∧ State.issues (fst (ui_step clk ev w)) = State.issues (fst w)
      ∧ snd (ui_step clk ev w) = snd w))
  ∧ (length (State.issues (fst (ui_step clk ev w)))
     < length (State.issues (fst w)) →
     State.role (fst w) = js "Admin")
  ∧ (length (State.issues (fst w))
     < length (State.issues (fst (ui_step clk ev w))) →
     State.role (fst w) = js "Citizen"
     ∨ State.role (fst w) = js "Politician")
  ∧ (length (State.issues (fst (ui_step clk ev w)))
     = length (State.issues (fst w)) →
     Issue.status <$> State.issues (fst (ui_step clk ev w))
     ≠ Issue.status <$> State.issues (fst w) →
     State.role (fst w) ∈ [js "Moderator"; js "Politician"; js "Admin"]).
Proof.
  destruct w as [st ls]. unfold ui_step. cbn [fst snd].
  destruct (handle_cases clk ev st) as [[Hflag Hv]|(a & Hp & Ha)].
  - rewrite Hflag. cbn [fst snd].
    pose proof (viewChange_issues _ _ Hv) as Hi. rewrite Hi.
    split; [right; by repeat split|]. split; [lia|]. split; [lia|].
    by intros _ [].
  - rewrite Ha. cbn [fst snd]. rewrite issuesEffect_issues.
    split.
    { left. exists a. split; [done|]. unfold dispatch. cbn [fst snd].
      by rewrite (permitted_replaces _ _ Hp). }
    destruct Hp as [title description category Hr Ht Ht' Hd Hd' Hc
                   |sel text Hs Ht Ht'
                   |text category Hr Ht Ht' Hc
                   |sel status Hs Hr Hu Hst Hne
                   |sel Hs Hr]; cbn [perform].
    + cbn. split; [lia|]. split; [by left|]. lia.
    + rewrite addComment_issues, length_fmap.
      split; [lia|]. split; [lia|]. intros _ Hne. destruct Hne.
      rewrite <- list_fmap_compose. apply list_fmap_ext.
      intros i it _. cbn. by case_decide.
    + cbn. split; [lia|]. split; [by right|]. lia.
    + rewrite changeStatus_issues, length_fmap.
      split; [lia|]. split; [lia|]. done.
    + rewrite deleteIssue_admin by done. cbn.
      pose proof (length_filter (λ it, Issue.id it ≠ Issue.id sel)
                    (State.issues st)).
      split; [done|]. split; [lia|]. intros _ _. rewrite Hr. by_compute.
Qed.
